(** * LoginPulse inventory window ([src/inventory_app.py])

    A shallow embedding of [InventoryApp]: the form variables, the list
    [_items], the [ttk.Treeview] that mirrors it, and the four button
    callbacks [add_item], [delete_selected], [clear_items] and [export_csv],
    together with the pieces of Python's library the callbacks go through
    ([str.strip], [int], [str], [csv.DictWriter], the UTF-8 text file).

    Text is a sequence of Unicode code points, as a Python [str] is.  A
    callback is a computation in a state-and-exception monad over the
    [World]: the application object, the dialogs shown so far and the file
    system. *)

From Stdlib Require Import ZArith NArith List Bool Lia String Ascii.
From Stdlib Require Import Strings.Byte.
From Stdlib Require DecimalZ DecimalPos.
Import ListNotations.

Set Implicit Arguments.

(** ** Python text *)

Definition char := N.
Definition str := list char.

Module Py.

Local Open Scope N_scope.

(** [str.isspace] on one code point: the characters [str.strip()] removes. *)
Definition isspace (c : char) : bool :=
  ((9 <=? c) && (c <=? 13)) || ((28 <=? c) && (c <=? 32))
  || (c =? 133) || (c =? 160) || (c =? 5760)
  || ((8192 <=? c) && (c <=? 8202))
  || (c =? 8232) || (c =? 8233) || (c =? 8239) || (c =? 8287) || (c =? 12288).

Section Strip.
Variable drop : char -> bool.

Fixpoint lstrip_with (s : str) : str :=
  match s with
  | c :: r => if drop c then lstrip_with r else s
  | [] => []
  end.

Definition rstrip_with (s : str) : str := rev (lstrip_with (rev s)).

Definition strip_with (s : str) : str := rstrip_with (lstrip_with s).
End Strip.

(** [s.strip()] *)
Definition strip (s : str) : str := strip_with isspace s.

(** [not s] for a [str] *)
Definition is_empty (s : str) : bool :=
  match s with [] => true | _ :: _ => false end.

(** Zeros of the decimal-digit (Nd) runs of the Unicode database 14.0, the
    one CPython 3.11 ships; each zero is followed by its digits 1 to 9. *)
Definition decimal_zeros : list N :=
  [ 0x30; 0x660; 0x6f0; 0x7c0; 0x966; 0x9e6; 0xa66; 0xae6; 0xb66; 0xbe6;
    0xc66; 0xce6; 0xd66; 0xde6; 0xe50; 0xed0; 0xf20; 0x1040; 0x1090; 0x17e0;
    0x1810; 0x1946; 0x19d0; 0x1a80; 0x1a90; 0x1b50; 0x1bb0; 0x1c40; 0x1c50;
    0xa620; 0xa8d0; 0xa900; 0xa9d0; 0xa9f0; 0xaa50; 0xabf0; 0xff10; 0x104a0;
    0x10d30; 0x11066; 0x110f0; 0x11136; 0x111d0; 0x112f0; 0x11450; 0x114d0;
    0x11650; 0x116c0; 0x11730; 0x118e0; 0x11950; 0x11c50; 0x11d50; 0x11da0;
    0x16a60; 0x16ac0; 0x16b50; 0x1d7ce; 0x1d7d8; 0x1d7e2; 0x1d7ec; 0x1d7f6;
    0x1e140; 0x1e2f0; 0x1e950; 0x1fbf0 ].

(** [unicodedata.decimal(c)], [None] when [c] is no decimal digit. *)
Definition decimal (c : char) : option Z :=
  match find (fun z => (z <=? c) && (c <=? z + 9)) decimal_zeros with
  | Some z => Some (Z.of_N (c - z))
  | None => None
  end.

(** White space as [int] skips it around the number: the ASCII blanks of
    the C locale, and every non-ASCII [isspace] character (which [int] first
    maps to a blank).  The separators 0x1c to 0x1f count for [strip] but not
    here. *)
Definition int_space (c : char) : bool :=
  ((9 <=? c) && (c <=? 13)) || (c =? 32) || ((127 <=? c) && isspace c).

(** Digits after the first one; [us] says the previous character was an
    underscore, which must be followed by a digit. *)
Fixpoint int_digits (acc : Z) (us : bool) (s : str) : option Z :=
  match s with
  | [] => if us then None else Some acc
  | c :: r =>
      if c =? 95 then (if us then None else int_digits acc true r)
      else match decimal c with
           | Some d => int_digits (10 * acc + d) false r
           | None => None
           end
  end.

(** The interpreter's cap on the digits of a decimal text,
    [sys.get_int_max_str_digits()]: 4300 unless it is configured otherwise,
    which the program does not do. *)
Definition max_str_digits : N := 4300.

(** The digits of a number text: its characters other than the underscores
    between them; leading zeros count. *)
Definition count_digits (s : str) : N :=
  N.of_nat (List.length (filter (fun c => negb (c =? 95)) s)).

(** The number after the sign: a digit, then digits with single underscores
    between them, no more than [max_str_digits] digits in all. *)
Definition int_unsigned (s : str) : option Z :=
  match s with
  | [] => None
  | c :: r => match decimal c with
              | Some d => if max_str_digits <? count_digits s then None
                          else int_digits d false r
              | None => None
              end
  end.

(** [int(s)] in base ten; [None] is [ValueError], which is also what a text
    of more than [max_str_digits] digits gives. *)
Definition int (s : str) : option Z :=
  match strip_with int_space s with
  | 43 :: r => int_unsigned r
  | 45 :: r => option_map Z.opp (int_unsigned r)
  | t => int_unsigned t
  end.

Fixpoint uint_digits (d : Decimal.uint) : str :=
  match d with
  | Decimal.Nil => []
  | Decimal.D0 r => 48 :: uint_digits r
  | Decimal.D1 r => 49 :: uint_digits r
  | Decimal.D2 r => 50 :: uint_digits r
  | Decimal.D3 r => 51 :: uint_digits r
  | Decimal.D4 r => 52 :: uint_digits r
  | Decimal.D5 r => 53 :: uint_digits r
  | Decimal.D6 r => 54 :: uint_digits r
  | Decimal.D7 r => 55 :: uint_digits r
  | Decimal.D8 r => 56 :: uint_digits r
  | Decimal.D9 r => 57 :: uint_digits r
  end.

(** [str(z)] for an [int] of at most [max_str_digits] digits, as [int]
    gives them; for a longer one [str] raises [ValueError]. *)
Definition str_of_int (z : Z) : str :=
  match Z.to_int z with
  | Decimal.Pos d => uint_digits d
  | Decimal.Neg d => 45 :: uint_digits d
  end.

(** *** UTF-8 *)

Definition byte_of (n : N) : byte :=
  match Byte.of_N n with Some b => b | None => x00 end.

(** The bytes of one code point; [None] ([UnicodeEncodeError]) for a
    surrogate, which the strict codec refuses. *)
Definition utf8_encode_char (c : char) : option (list byte) :=
  if c <? 0x80 then Some [byte_of c]
  else if c <? 0x800 then
    Some [byte_of (0xC0 + c / 64); byte_of (0x80 + c mod 64)]
  else if c <? 0x10000 then
    if (0xD800 <=? c) && (c <=? 0xDFFF) then None
    else Some [byte_of (0xE0 + c / 4096); byte_of (0x80 + (c / 64) mod 64);
               byte_of (0x80 + c mod 64)]
  else if c <? 0x110000 then
    Some [byte_of (0xF0 + c / 262144); byte_of (0x80 + (c / 4096) mod 64);
          byte_of (0x80 + (c / 64) mod 64); byte_of (0x80 + c mod 64)]
  else None.

Fixpoint utf8_encode (s : str) : option (list byte) :=
  match s with
  | [] => Some []
  | c :: r =>
      match utf8_encode_char c, utf8_encode r with
      | Some b, Some bs => Some (b ++ bs)
      | _, _ => None
      end
  end.

Definition is_cont (b : byte) : bool :=
  (0x80 <=? Byte.to_N b) && (Byte.to_N b <? 0xC0).

Definition cont (b : byte) : N := Byte.to_N b - 0x80.

(** Strict UTF-8 decoding: shortest form only, no surrogates, nothing past
    U+10FFFF. *)
Fixpoint utf8_decode (bs : list byte) : option str :=
  match bs with
  | [] => Some []
  | b0 :: r0 =>
      let n0 := Byte.to_N b0 in
      if n0 <? 0x80 then option_map (cons n0) (utf8_decode r0)
      else if n0 <? 0xC0 then None
      else if n0 <? 0xE0 then
        match r0 with
        | b1 :: r1 =>
            let c := (n0 - 0xC0) * 64 + cont b1 in
            if is_cont b1 && (0x80 <=? c)
            then option_map (cons c) (utf8_decode r1) else None
        | _ => None
        end
      else if n0 <? 0xF0 then
        match r0 with
        | b1 :: b2 :: r2 =>
            let c := (n0 - 0xE0) * 4096 + cont b1 * 64 + cont b2 in
            if is_cont b1 && is_cont b2 && (0x800 <=? c)
               && negb ((0xD800 <=? c) && (c <=? 0xDFFF))
            then option_map (cons c) (utf8_decode r2) else None
        | _ => None
        end
      else
        match r0 with
        | b1 :: b2 :: b3 :: r3 =>
            let c := (n0 - 0xF0) * 262144 + cont b1 * 4096
                     + cont b2 * 64 + cont b3 in
            if is_cont b1 && is_cont b2 && is_cont b3
               && (0x10000 <=? c) && (c <? 0x110000)
            then option_map (cons c) (utf8_decode r3) else None
        | _ => None
        end
  end.

(** A literal of this file (UTF-8 source text) as a [str]. *)
Definition u (s : string) : str :=
  match utf8_decode (list_byte_of_string s) with
  | Some t => t
  | None => []
  end.

End Py.

(** ** Values and records *)

(** Python values the fields of an [InventoryItem] can hold: the annotations
    of the dataclass are not enforced at run time. *)
Inductive value :=
| VStr (s : str)
| VInt (z : Z).

(** [str(v)] *)
Definition str_of (v : value) : str :=
  match v with
  | VStr s => s
  | VInt z => Py.str_of_int z
  end.

Definition str_eqb (a b : str) : bool :=
  if list_eq_dec N.eq_dec a b then true else false.

Record InventoryItem := mkItem {
  name : value;
  quantity : value;
  location : value;
  notes : value
}.

(** The constructor applied to an unpacked tuple of table values: exactly
    four positional arguments, else [TypeError]. *)
Definition InventoryItem_of (values : list value) : option InventoryItem :=
  match values with
  | [a; b; c; d] => Some (mkItem a b c d)
  | _ => None
  end.

(** ** csv *)

Module Csv.

Local Open Scope N_scope.

(** The [excel] dialect, which [csv.DictWriter] uses by default. *)
Definition delimiter : char := 44.
Definition quotechar : char := 34.
Definition lineterminator : str := [13; 10].

(** A character that forces the field into quotes (QUOTE_MINIMAL). *)
Definition special (c : char) : bool :=
  (c =? delimiter) || (c =? quotechar) || existsb (N.eqb c) lineterminator.

(** The quote character doubled ([doublequote]). *)
Definition escape (f : str) : str :=
  flat_map (fun c => if c =? quotechar then [quotechar; quotechar] else [c]) f.

Definition quote_field (f : str) : str :=
  if existsb special f then quotechar :: escape f ++ [quotechar] else f.

Fixpoint join (fs : list str) : str :=
  match fs with
  | [] => []
  | [f] => f
  | f :: r => f ++ delimiter :: join r
  end.

(** [writer.writerow(fields)]: the line handed to the file's [write].  A
    record of one empty field is written as a pair of quotes. *)
Definition writerow (fields : list value) : str :=
  match fields with
  | [f] => if Py.is_empty (str_of f) then [quotechar; quotechar] ++ lineterminator
           else quote_field (str_of f) ++ lineterminator
  | _ => join (map (fun f => quote_field (str_of f)) fields) ++ lineterminator
  end.

(** A row handed to [DictWriter.writerow]: keys in the order written. *)
Definition dict := list (str * value).

Fixpoint dict_get (d : dict) (k : str) : option value :=
  match d with
  | [] => None
  | (k', v) :: r => if str_eqb k' k then Some v else dict_get r k
  end.

(** [DictWriter._dict_to_list]: [None] is the [ValueError] for a key that is
    no field name ([extrasaction='raise']); a missing key gives [restval]. *)
Definition _dict_to_list (fieldnames : list str) (rowdict : dict)
  : option (list value) :=
  if forallb (fun kv => existsb (str_eqb (fst kv)) fieldnames) rowdict
  then Some (map (fun k => match dict_get rowdict k with
                           | Some v => v
                           | None => VStr []
                           end) fieldnames)
  else None.

(** [DictWriter.writeheader]'s row: [dict(zip(fieldnames, fieldnames))]. *)
Definition header_dict (fieldnames : list str) : dict :=
  map (fun k => (k, VStr k)) fieldnames.

End Csv.

(** ** tkinter *)

Module Tk.

Local Open Scope N_scope.

(** Item identifiers: the treeview hands out [I001], [I002], ...; the model
    keeps the counter. *)
Definition iid := N.

(** A row of the table: the cell texts, as Tcl holds them. *)
Record row := mkRow { row_id : iid; row_values : list str }.

Record Treeview := mkTree {
  rows : list row;          (* children of the root, top to bottom *)
  selected : list iid;      (* the selection *)
  serial : N                (* identifiers handed out so far *)
}.

Definition empty : Treeview := mkTree [] [] 0.

(** [tree.get_children()] *)
Definition get_children (t : Treeview) : list iid := map row_id (rows t).

(** [tree.selection()] *)
Definition selection (t : Treeview) : list iid := selected t.

Fixpoint index_of (id : iid) (rs : list row) : option nat :=
  match rs with
  | [] => None
  | r :: rest =>
      if row_id r =? id then Some 0%nat else option_map S (index_of id rest)
  end.

(** [tree.index(id)]; [None] is the [TclError] for an unknown item. *)
Definition index (t : Treeview) (id : iid) : option nat :=
  index_of id (rows t).

Fixpoint remove_row (id : iid) (rs : list row) : list row :=
  match rs with
  | [] => []
  | r :: rest => if row_id r =? id then rest else r :: remove_row id rest
  end.

(** [tree.delete(id)]: the row leaves the table and the selection. *)
Definition delete (t : Treeview) (id : iid) : option Treeview :=
  match index t id with
  | None => None
  | Some _ =>
      Some (mkTree (remove_row id (rows t))
                   (filter (fun j => negb (j =? id)) (selected t))
                   (serial t))
  end.

(** [tree.insert] at [tk.END] of the root with the given [values] *)
Definition insert_end (t : Treeview) (values : list str) : Treeview :=
  mkTree (rows t ++ [mkRow (serial t + 1) values]) (selected t) (serial t + 1).

(** [tree.item(id, "values")]: the cell texts of the row. *)
Definition item_values (t : Treeview) (id : iid) : option (list str) :=
  option_map row_values (find (fun r => row_id r =? id) (rows t)).

(** The user clicks rows of the table: they become the selection. *)
Definition select_rows (t : Treeview) (positions : list nat) : Treeview :=
  mkTree (rows t)
         (flat_map (fun p => match nth_error (rows t) p with
                             | Some r => [row_id r]
                             | None => []
                             end) positions)
         (serial t).

(** Dialogs of [messagebox] and [filedialog], by title and message. *)
Inductive dialog :=
| showwarning (title message : str)
| showinfo (title message : str)
| askyesno (title message : str)
| asksaveasfilename (title defaultextension : str).

End Tk.

(** ** The application object and its world *)

Record InventoryApp := mkApp {
  name_var : str;
  quantity_var : str;
  location_var : str;
  notes_var : str;
  _items : list InventoryItem;
  tree : Tk.Treeview
}.

(** What a callback can touch: the window, the screen (dialogs shown, oldest
    first) and the disk.  [files] holds the bytes of every file; for a file
    that is open for writing these are the bytes written to it, which are on
    the disk for good once the file is closed.  [io_budget] is what the disk
    still takes before it fails with [OSError]: one unit for opening a file,
    one for every byte of a file; [None] is a sound disk. *)
Record World := mkWorld {
  self : InventoryApp;
  shown : list Tk.dialog;
  files : str -> option (list byte);
  io_budget : option nat
}.

Inductive exn :=
| ValueError | UnicodeEncodeError | IndexError | TypeError | TclError | OSError.

(** [except ValueError] also catches its subclass [UnicodeEncodeError]. *)
Definition is_ValueError (e : exn) : bool :=
  match e with ValueError | UnicodeEncodeError => true | _ => false end.

Definition is_IndexError (e : exn) : bool :=
  match e with IndexError => true | _ => false end.

Inductive result (A : Type) :=
| Return (a : A)
| Raise (e : exn).
Arguments Raise {A} e.

Definition M (A : Type) : Type := World -> result A * World.

Definition ret {A} (a : A) : M A := fun w => (Return a, w).

Definition bind {A B} (m : M A) (k : A -> M B) : M B :=
  fun w => match m w with
           | (Return a, w') => k a w'
           | (Raise e, w') => (Raise e, w')
           end.

Definition raise {A} (e : exn) : M A := fun w => (Raise e, w).

(** [try: body except cls: handler] *)
Definition try_except {A} (body : M A) (cls : exn -> bool) (handler : M A)
  : M A :=
  fun w => match body w with
           | (Raise e, w') => if cls e then handler w' else (Raise e, w')
           | r => r
           end.

Declare Scope py_scope.
Delimit Scope py_scope with py.
Notation "x <- m ;; k" := (bind m (fun x => k))
  (at level 61, m at next level, right associativity) : py_scope.
Notation "m ;; k" := (bind m (fun _ => k))
  (at level 61, right associativity) : py_scope.
Local Open Scope py_scope.

Definition lift {A} (e : exn) (o : option A) : M A :=
  match o with Some a => ret a | None => raise e end.

Definition gets {A} (f : InventoryApp -> A) : M A :=
  fun w => (Return (f (self w)), w).

Definition update (f : InventoryApp -> InventoryApp) : M unit :=
  fun w => (Return tt, mkWorld (f (self w)) (shown w) (files w) (io_budget w)).

Definition show (d : Tk.dialog) : M unit :=
  fun w => (Return tt, mkWorld (self w) (shown w ++ [d]) (files w) (io_budget w)).

Fixpoint for_each {A} (xs : list A) (body : A -> M unit) : M unit :=
  match xs with
  | [] => ret tt
  | x :: r => body x ;; for_each r body
  end.

Fixpoint map_m {A B} (f : A -> M B) (xs : list A) : M (list B) :=
  match xs with
  | [] => ret []
  | x :: r => y <- f x ;; ys <- map_m f r ;; ret (y :: ys)
  end.

Definition set_form (n q l t : str) (a : InventoryApp) : InventoryApp :=
  mkApp n q l t (_items a) (tree a).

Definition set_items (xs : list InventoryItem) (a : InventoryApp)
  : InventoryApp :=
  mkApp (name_var a) (quantity_var a) (location_var a) (notes_var a) xs (tree a).

Definition set_tree (t : Tk.Treeview) (a : InventoryApp) : InventoryApp :=
  mkApp (name_var a) (quantity_var a) (location_var a) (notes_var a)
        (_items a) t.

(** *** The disk *)

(** The disk is asked for a file: it fails once the budget is used up. *)
Definition io : M unit :=
  fun w => match io_budget w with
           | None => (Return tt, w)
           | Some O => (Raise OSError, w)
           | Some (S n) =>
               (Return tt, mkWorld (self w) (shown w) (files w) (Some n))
           end.

Definition put_file (path : str) (content : list byte) : M unit :=
  fun w => (Return tt,
            mkWorld (self w) (shown w)
                    (fun p => if str_eqb p path then Some content else files w p)
                    (io_budget w)).

(** [path.open] for writing, UTF-8, no newline translation: the file is
    created or cut to length zero. *)
Definition open_w (path : str) : M unit :=
  io ;; put_file path [].

(** [csvfile.write(text)]: the text is encoded and joins what the file
    object holds.  The file is buffered, so the disk is not asked here. *)
Definition write (path : str) (text : str) : M unit :=
  bs <- lift UnicodeEncodeError (Py.utf8_encode text) ;;
  fun w => put_file path (match files w path with
                          | Some old => old ++ bs
                          | None => bs
                          end) w.

(** [csvfile.close()]: what the file object holds is handed to the disk.  A
    disk that fails on the way keeps the bytes it had room for, the others
    are lost, and [close] raises [OSError].  (A buffer that fills up earlier
    makes the [write] at hand raise instead; the bytes on the disk and the
    exception that leaves the [with] block are the same, so the model lets
    the disk answer at [close] only.) *)
Definition close (path : str) : M unit :=
  fun w => match io_budget w, files w path with
           | Some n, Some content =>
               if (n <? List.length content)%nat then
                 (Raise OSError,
                  mkWorld (self w) (shown w)
                          (fun p => if str_eqb p path
                                    then Some (firstn n content)
                                    else files w p)
                          (Some 0%nat))
               else
                 (Return tt,
                  mkWorld (self w) (shown w) (files w)
                          (Some (n - List.length content)%nat))
           | _, _ => (Return tt, w)
           end.

(** [with path.open("w", ...) as csvfile: body]: the file is opened, the
    body runs, and the file is closed however the body ends; an exception
    of [close] takes the place of the body's. *)
Definition with_open {A} (path : str) (body : M A) : M A :=
  open_w path ;;
  fun w => match body w with
           | (r, w1) => match close path w1 with
                        | (Return _, w2) => (r, w2)
                        | (Raise e, w2) => (Raise e, w2)
                        end
           end.

(** [DictWriter.writerow(rowdict)] on the file at [path]. *)
Definition DictWriter_writerow (path : str) (fieldnames : list str)
           (rowdict : Csv.dict) : M unit :=
  fields <- lift ValueError (Csv._dict_to_list fieldnames rowdict) ;;
  write path (Csv.writerow fields).

(** [DictWriter.writeheader()] *)
Definition DictWriter_writeheader (path : str) (fieldnames : list str)
  : M unit :=
  DictWriter_writerow path fieldnames (Csv.header_dict fieldnames).

(** ** The callbacks of [InventoryApp] *)

(** [__init__]: an empty list, an empty table, and the form as
    [_build_form] sets it up. *)
Definition init : InventoryApp :=
  mkApp [] (Py.u "1") [] [] [] Tk.empty.

Definition _append_to_table (item : InventoryItem) : M unit :=
  t <- gets tree ;;
  update (set_tree (Tk.insert_end t
    (map str_of [name item; quantity item; location item; notes item]))).

Definition _reset_form : M unit :=
  update (set_form [] (Py.u "1") [] []).

(** The two warnings of [add_item], under the names the specification gives
    the conditions. *)
Definition EmptyName : Tk.dialog :=
  Tk.showwarning (Py.u "Eingabe prüfen")
                 (Py.u "Bitte einen Artikelnamen eingeben.").

Definition InvalidQuantity : Tk.dialog :=
  Tk.showwarning (Py.u "Eingabe prüfen")
                 (Py.u "Menge muss eine Zahl größer oder gleich 1 sein.").

Definition NoSelection : Tk.dialog :=
  Tk.showinfo (Py.u "Auswahl") (Py.u "Kein Eintrag ausgewählt.").

Definition EmptyLedger : Tk.dialog :=
  Tk.showinfo (Py.u "Export") (Py.u "Keine Daten zum Speichern vorhanden.").

(** The [try] block of [add_item]: the parsed quantity, or [None] after the
    warning (where the callback returns). *)
Definition read_quantity : M (option Z) :=
  try_except
    (text <- gets quantity_var ;;
     quantity <- lift ValueError (Py.int text) ;;
     if (quantity <? 1)%Z then raise ValueError else ret (Some quantity))
    is_ValueError
    (show InvalidQuantity ;; ret None).

Definition add_item : M unit :=
  raw <- gets name_var ;;
  let name := Py.strip raw in
  if Py.is_empty name then show EmptyName
  else
    parsed <- read_quantity ;;
    match parsed with
    | None => ret tt
    | Some quantity =>
        loc <- gets location_var ;;
        note <- gets notes_var ;;
        let item := mkItem (VStr name) (VInt quantity)
                           (VStr (Py.strip loc)) (VStr (Py.strip note)) in
        xs <- gets _items ;;
        update (set_items (xs ++ [item])) ;;
        _append_to_table item ;;
        _reset_form
    end.

(** [del xs[index]]; [None] is [IndexError]. *)
Definition list_del {A} (xs : list A) (index : nat) : option (list A) :=
  if (index <? List.length xs)%nat
  then Some (firstn index xs ++ skipn (S index) xs)
  else None.

(** The list comprehension of the [except IndexError] branch: one item per
    row of the table, from the row's cell texts. *)
Definition items_from_table : M (list InventoryItem) :=
  t <- gets tree ;;
  map_m (fun id =>
           values <- lift TclError (Tk.item_values t id) ;;
           lift TypeError (InventoryItem_of (map VStr values)))
        (Tk.get_children t).

(** [self.tree.delete(id)] *)
Definition tree_delete (id : Tk.iid) : M unit :=
  t <- gets tree ;;
  t' <- lift TclError (Tk.delete t id) ;;
  update (set_tree t').

Definition delete_selected : M unit :=
  t <- gets tree ;;
  match Tk.selection t with
  | [] => show NoSelection
  | first :: _ =>
      index <- lift TclError (Tk.index t first) ;;
      tree_delete first ;;
      try_except
        (xs <- gets _items ;;
         xs' <- lift IndexError (list_del xs index) ;;
         update (set_items xs'))
        is_IndexError
        (xs <- items_from_table ;;
         update (set_items xs))
  end.

(** [clear_items]; [answer] is what the user replies to the question. *)
Definition clear_items (answer : bool) : M unit :=
  show (Tk.askyesno (Py.u "Bestätigen")
                    (Py.u "Alle Einträge wirklich löschen?")) ;;
  if answer then
    t <- gets tree ;;
    for_each (Tk.get_children t) tree_delete ;;
    update (set_items [])
  else ret tt.

Definition fieldnames : list str :=
  [Py.u "Artikel"; Py.u "Menge"; Py.u "Standort"; Py.u "Notizen"].

Definition row_dict (item : InventoryItem) : Csv.dict :=
  [ (Py.u "Artikel", name item);
    (Py.u "Menge", quantity item);
    (Py.u "Standort", location item);
    (Py.u "Notizen", notes item) ].

(** The file is closed when the [with] block is left, also by an
    exception. *)
Definition _write_csv (path : str) : M unit :=
  with_open path
    (DictWriter_writeheader path fieldnames ;;
     xs <- gets _items ;;
     for_each xs (fun item =>
                    DictWriter_writerow path fieldnames (row_dict item))).

(** [Path(file_path)]; the model keeps the text of the path as it is. *)
Definition Path (file_path : str) : str := file_path.

(** [export_csv]; [chosen] is what the save dialog returns, the empty text
    when the user cancels it. *)
Definition export_csv (chosen : str) : M unit :=
  xs <- gets _items ;;
  match xs with
  | [] => show EmptyLedger
  | _ :: _ =>
      show (Tk.asksaveasfilename (Py.u "CSV speichern") (Py.u ".csv")) ;;
      let file_path := chosen in
      if Py.is_empty file_path then ret tt
      else
        _write_csv (Path file_path) ;;
        show (Tk.showinfo (Py.u "Export")
                          (Py.u "Datei gespeichert: " ++ file_path))
  end.

(** ** The event loop *)

(** What happens to the window between and at the callbacks. *)
Inductive event :=
| Typing (name quantity location notes : str)   (* the user edits the form *)
| Selecting (positions : list nat)              (* the user clicks rows *)
| Disk (budget : option nat)                    (* the disk changes state *)
| Add                                           (* button: add_item *)
| DeleteSelected                                (* button: delete_selected *)
| Clear (answer : bool)                         (* button: clear_items *)
| Export (chosen : str).                        (* button: export_csv *)

Definition callback (e : event) : M unit :=
  match e with
  | Typing n q l t => update (set_form n q l t)
  | Selecting ps => t <- gets tree ;; update (set_tree (Tk.select_rows t ps))
  | Disk b => fun w => (Return tt, mkWorld (self w) (shown w) (files w) b)
  | Add => add_item
  | DeleteSelected => delete_selected
  | Clear answer => clear_items answer
  | Export chosen => export_csv chosen
  end.

(** [mainloop]: an exception that leaves a callback is reported and the
    loop goes on with the window as the callback left it. *)
Definition step (w : World) (e : event) : World := snd (callback e w).

Definition mainloop (es : list event) (w : World) : World :=
  fold_left step es w.

Definition start (disk : str -> option (list byte)) : World :=
  mkWorld init [] disk None.

(** ** Reading a file back

    [csv.reader] with the same dialect over the text of a file opened
    without newline translation: the parser of the [_csv] module, fed line
    by line, each line followed by the end-of-line mark.  It is what the
    round trip of an export is measured with. *)

Module Reader.

Local Open Scope N_scope.

















End Reader.

(** ** Worlds after a callback *)

Definition with_dialog (d : Tk.dialog) (w : World) : World :=
  mkWorld (self w) (shown w ++ [d]) (files w) (io_budget w).

Definition with_self (a : InventoryApp) (w : World) : World :=
  mkWorld a (shown w) (files w) (io_budget w).

(** The item [add_item] builds from the form once the quantity is parsed. *)
Definition new_item (a : InventoryApp) (quantity : Z) : InventoryItem :=
  mkItem (VStr (Py.strip (name_var a))) (VInt quantity)
         (VStr (Py.strip (location_var a))) (VStr (Py.strip (notes_var a))).

(** The four fields of an item, in the order of the table's columns. *)
Definition fields (item : InventoryItem) : list value :=
  [name item; quantity item; location item; notes item].

(** The cell texts of an item's row in the table. *)
Definition cells (item : InventoryItem) : list str :=
  map str_of (fields item).

(** What a row of the table shows, as the values [tree.item] returns. *)
Definition displayed (r : Tk.row) : list value :=
  map VStr (Tk.row_values r).

(** The window after a successful [add_item]. *)
Definition added (a : InventoryApp) (quantity : Z) : InventoryApp :=
  mkApp [] (Py.u "1") [] []
        (_items a ++ [new_item a quantity])
        (Tk.insert_end (tree a) (cells (new_item a quantity))).

(** The quantity text is refused: no integer, or one below 1. *)
Definition bad_quantity (text : str) : Prop :=
  match Py.int text with
  | None => True
  | Some z => (z < 1)%Z
  end.

(** The two checks of [add_item], in the order the callback makes them. *)
Definition accepts (a : InventoryApp) : bool :=
  negb (Py.is_empty (Py.strip (name_var a)))
  && match Py.int (quantity_var a) with
     | Some z => (1 <=? z)%Z
     | None => false
     end.

(** The texts of the four entry fields. *)
Definition form (a : InventoryApp) : str * str * str * str :=
  (name_var a, quantity_var a, location_var a, notes_var a).

(** A window whose form holds the given texts, a sound disk without files. *)
Definition typed (n q l t : str) : World :=
  mkWorld (set_form n q l t init) [] (fun _ => None) None.

(** [xs] without its element at position [i]. *)
Definition without {A} (i : nat) (xs : list A) : list A :=
  firstn i xs ++ skipn (S i) xs.

(** The table as the window keeps it: item identifiers are distinct (the
    treeview hands out a fresh one per insertion) and every row has the four
    cells [_append_to_table] gives it. *)
Definition table_wf (t : Tk.Treeview) : Prop :=
  NoDup (Tk.get_children t) /\
  Forall (fun r => List.length (Tk.row_values r) = 4%nat) (Tk.rows t) /\
  Forall (fun r => (Tk.row_id r <= Tk.serial t)%N) (Tk.rows t).

(** The data model of an entry: a non-empty text as name, an integer of at
    least 1 as quantity, texts as location and notes. *)
Definition entry_ok (e : InventoryItem) : Prop :=
  exists n q l t,
    e = mkItem (VStr n) (VInt q) (VStr l) (VStr t) /\ n <> [] /\ (1 <= q)%Z.

(** The table shows the items, row for row. *)
Definition mirrors (a : InventoryApp) : Prop :=
  map Tk.row_values (Tk.rows (tree a)) = map cells (_items a).

(** The table after [tree.delete] of the item [id] found at index [i]. *)
Definition row_deleted (t : Tk.Treeview) (id : Tk.iid) (i : nat)
  : Tk.Treeview :=
  Tk.mkTree (without i (Tk.rows t))
            (filter (fun j => negb (N.eqb j id)) (Tk.selected t))
            (Tk.serial t).

(** The item the [except] branch builds from a row with four cells. *)
Definition item_of_row (r : Tk.row) : option InventoryItem :=
  InventoryItem_of (displayed r).

(** A window whose table holds three rows while [_items] holds only the
    first entry, the third row being selected: table and list disagree. *)
Definition diverged : World :=
  let row (id : N) (n q : string) := Tk.mkRow id [Py.u n; Py.u q; []; []] in
  mkWorld
    (mkApp [] (Py.u "1") [] []
           [mkItem (VStr (Py.u "A")) (VInt 1) (VStr []) (VStr [])]
           (Tk.mkTree [row 1%N "A"%string "1"%string;
                       row 2%N "B"%string "2"%string;
                       row 3%N "C"%string "3"%string]
                      [3%N] 3%N))
    [] (fun _ => None) None.

(** A computation that leaves the application object as it found it. *)
Definition keeps_self {A} (m : M A) : Prop :=
  forall w, self (snd (m w)) = self w.

(** What the event loop maintains: every entry fits the data model, and the
    table shows the entries row for row. *)
Definition consistent (a : InventoryApp) : Prop :=
  Forall entry_ok (_items a) /\ mirrors a.

(** The text of a complete export: the header row, then one row per
    entry, in the order of the list. *)
Definition csv_text (xs : list InventoryItem) : str :=
  Csv.writerow (map VStr fieldnames)
  ++ flat_map (fun item => Csv.writerow (fields item)) xs.

(** The disk of [w'] is the disk of [w] with [content] at [path]. *)
Definition stored (path : str) (content : list byte) (w w' : World) : Prop :=
  files w' path = Some content /\
  (forall p, p <> path -> files w' p = files w p).



(** The window after the two entries of the round-trip example were added. *)
Definition two_entries : World :=
  mainloop [Typing (Py.u "Schraube") (Py.u "10") (Py.u "Regal A")
                   (Py.u "rostfrei"); Add;
            Typing (Py.u "Mutter") (Py.u "25") (Py.u "Regal B") []; Add]
           (start (fun _ => None)).

(** The ledger of the round-trip example, the file its export is to give
    (lines end in carriage return and line feed), and the rows the file is to
    read back as. *)
Definition example_entries : list InventoryItem :=
  [ mkItem (VStr (Py.u "Schraube")) (VInt 10) (VStr (Py.u "Regal A"))
           (VStr (Py.u "rostfrei"));
    mkItem (VStr (Py.u "Mutter")) (VInt 25) (VStr (Py.u "Regal B"))
           (VStr []) ].

Definition example_file : list byte :=
  list_byte_of_string "Artikel,Menge,Standort,Notizen" ++ [x0d; x0a]
  ++ list_byte_of_string "Schraube,10,Regal A,rostfrei" ++ [x0d; x0a]
  ++ list_byte_of_string "Mutter,25,Regal B," ++ [x0d; x0a].


(** ** Further notions *)

(** A computation that leaves the component [f] of the world as it found
    it. *)
Definition preserves {X A} (f : World -> X) (m : M A) : Prop :=
  forall w, f (snd (m w)) = f w.

(** Every selected item is a row of the table (the treeview drops a deleted
    item from the selection). *)
Definition selection_wf (t : Tk.Treeview) : Prop :=
  Forall (fun id => In id (Tk.get_children t)) (Tk.selected t).

(** All the event loop maintains about the window. *)
Definition healthy (a : InventoryApp) : Prop :=
  consistent a /\ table_wf (tree a) /\ selection_wf (tree a).

(** The question [clear_items] asks. *)
Definition ClearQuestion : Tk.dialog :=
  Tk.askyesno (Py.u "Bestätigen") (Py.u "Alle Einträge wirklich löschen?").

(** The dialog [export_csv] opens for the file name. *)
Definition SaveDialog : Tk.dialog :=
  Tk.asksaveasfilename (Py.u "CSV speichern") (Py.u ".csv").

(** A text that neither starts nor ends with a white-space character. *)
Definition trimmed (s : str) : Prop :=
  match s with [] => True | c :: _ => Py.isspace c = false end /\
  match rev s with [] => True | c :: _ => Py.isspace c = false end.

(** An entry whose three texts are trimmed. *)
Definition entry_trimmed (e : InventoryItem) : Prop :=
  exists n q l t,
    e = mkItem (VStr n) q (VStr l) (VStr t) /\
    trimmed n /\ trimmed l /\ trimmed t.

(** The value of the digits [d] read after the value [acc]. *)
Fixpoint uint_value (acc : Z) (d : Decimal.uint) : Z :=
  match d with
  | Decimal.Nil => acc
  | Decimal.D0 r => uint_value (10 * acc + 0) r
  | Decimal.D1 r => uint_value (10 * acc + 1) r
  | Decimal.D2 r => uint_value (10 * acc + 2) r
  | Decimal.D3 r => uint_value (10 * acc + 3) r
  | Decimal.D4 r => uint_value (10 * acc + 4) r
  | Decimal.D5 r => uint_value (10 * acc + 5) r
  | Decimal.D6 r => uint_value (10 * acc + 6) r
  | Decimal.D7 r => uint_value (10 * acc + 7) r
  | Decimal.D8 r => uint_value (10 * acc + 8) r
  | Decimal.D9 r => uint_value (10 * acc + 9) r
  end.

(** The integers [int] gives and [str] writes: those of no more than
    [max_str_digits] decimal digits. *)
Definition in_int_range (z : Z) : Prop :=
  (Z.abs z < 10 ^ Z.of_N Py.max_str_digits)%Z.

(** An entry whose quantity is such an integer. *)
Definition quantity_in_range (e : InventoryItem) : Prop :=
  exists z, quantity e = VInt z /\ in_int_range z.

(** An item rebuilt from a row carries the entry's texts, and as quantity
    the cell text [str(quantity)], which [int] reads as the entry's
    quantity. *)
Definition same_entry (rebuilt entry : InventoryItem) : Prop :=
  name rebuilt = name entry /\
  location rebuilt = location entry /\
  notes rebuilt = notes entry /\
  exists z, quantity entry = VInt z /\
            quantity rebuilt = VStr (Py.str_of_int z) /\
            Py.int (Py.str_of_int z) = Some z.
(** * Properties *)

(** ** Trimming *)

Section StripFacts.
Variable drop : char -> bool.

Lemma lstrip_with_all (s : str) :
  forallb drop s = true -> Py.lstrip_with drop s = [].
Proof.
  induction s as [|c r IH]; simpl; [reflexivity|].
  intros H. apply andb_prop in H as [Hc Hr]. rewrite Hc. auto.
Qed.

Lemma lstrip_with_nil_all (s : str) :
  Py.lstrip_with drop s = [] -> forallb drop s = true.
Proof.
  induction s as [|c r IH]; simpl; [reflexivity|].
  destruct (drop c); simpl; [exact IH | discriminate].
Qed.

Lemma forallb_rev (s : str) : forallb drop (rev s) = forallb drop s.
Proof.
  induction s as [|c r IH]; simpl; [reflexivity|].
  rewrite forallb_app, IH. simpl. rewrite andb_true_r. apply andb_comm.
Qed.

(** What [lstrip] leaves is empty or starts with a character it keeps. *)
Lemma lstrip_with_head (s : str) :
  match Py.lstrip_with drop s with
  | [] => True
  | c :: _ => drop c = false
  end.
Proof.
  induction s as [|c r IH]; simpl; [exact I|].
  destruct (drop c) eqn:E; [exact IH | exact E].
Qed.

Lemma strip_with_nil_iff (s : str) :
  Py.strip_with drop s = [] <-> forallb drop s = true.
Proof.
  unfold Py.strip_with, Py.rstrip_with. split.
  - intros H.
    assert (H1 : Py.lstrip_with drop (rev (Py.lstrip_with drop s)) = []).
    { rewrite <- (rev_involutive (Py.lstrip_with _ (rev _))), H. reflexivity. }
    apply lstrip_with_nil_all in H1. rewrite forallb_rev in H1.
    pose proof (lstrip_with_head s) as Hh.
    destruct (Py.lstrip_with drop s) as [|c t] eqn:E.
    + now apply lstrip_with_nil_all.
    + simpl in H1. rewrite Hh in H1. discriminate.
  - intros H. rewrite (lstrip_with_all _ H). reflexivity.
Qed.
End StripFacts.

(** A name is blank exactly when it holds white space only. *)
Lemma strip_blank_iff (s : str) :
  Py.is_empty (Py.strip s) = true <-> forallb Py.isspace s = true.
Proof.
  unfold Py.strip. rewrite <- strip_with_nil_iff.
  destruct (Py.strip_with Py.isspace s); simpl; split; congruence.
Qed.

(** ** [add_item] *)

Ltac run :=
  cbv beta iota delta
    [bind ret raise lift gets update show try_except with_dialog with_self
     tree_delete].

Lemma add_item_blank (w : World) :
  Py.is_empty (Py.strip (name_var (self w))) = true ->
  add_item w = (Return tt, with_dialog EmptyName w).
Proof.
  intros H. unfold add_item. run. rewrite H. reflexivity.
Qed.

Lemma read_quantity_bad (w : World) :
  bad_quantity (quantity_var (self w)) ->
  read_quantity w = (Return None, with_dialog InvalidQuantity w).
Proof.
  unfold bad_quantity, read_quantity. run.
  destruct (Py.int (quantity_var (self w))) as [z|]; intros H.
  - apply Z.ltb_lt in H. rewrite H. reflexivity.
  - reflexivity.
Qed.

Lemma read_quantity_good (w : World) (z : Z) :
  Py.int (quantity_var (self w)) = Some z -> (1 <= z)%Z ->
  read_quantity w = (Return (Some z), w).
Proof.
  intros H Hz. unfold read_quantity. run. rewrite H.
  apply Z.ltb_ge in Hz. rewrite Hz. reflexivity.
Qed.

Lemma add_item_bad_quantity (w : World) :
  Py.is_empty (Py.strip (name_var (self w))) = false ->
  bad_quantity (quantity_var (self w)) ->
  add_item w = (Return tt, with_dialog InvalidQuantity w).
Proof.
  intros Hn Hq. unfold add_item.
  cbv beta iota delta [bind gets fst snd]. rewrite Hn.
  rewrite (read_quantity_bad _ Hq). reflexivity.
Qed.

Lemma add_item_good (w : World) (z : Z) :
  Py.is_empty (Py.strip (name_var (self w))) = false ->
  Py.int (quantity_var (self w)) = Some z -> (1 <= z)%Z ->
  add_item w = (Return tt, with_self (added (self w) z) w).
Proof.
  intros Hn Hq Hz. unfold add_item.
  cbv beta iota delta [bind gets fst snd]. rewrite Hn.
  rewrite (read_quantity_good _ Hq Hz). reflexivity.
Qed.

Lemma is_empty_false (s : str) : s <> [] -> Py.is_empty s = false.
Proof. destruct s; [congruence | reflexivity]. Qed.

(** C1, as stated, fails: with the location typed as [" Regal A"] the entry
    appended holds ["Regal A"], not the text typed. *)
Lemma add_item_entry_is_not_the_raw_input :
  let w := typed (Py.u "Schraube") (Py.u "10") (Py.u " Regal A")
                 (Py.u "rostfrei") in
  let a := self w in
  Py.strip (name_var a) <> [] /\
  Py.int (quantity_var a) = Some 10%Z /\
  _items (self (snd (add_item w)))
  <> _items a ++ [mkItem (VStr (name_var a)) (VInt 10)
                         (VStr (location_var a)) (VStr (notes_var a))].
Proof.
  vm_compute. repeat split; discriminate.
Qed.

(** C1 (amended): for a name that is not blank after trimming and a quantity
    text that [int] reads as [z >= 1], [add_item] appends exactly one item to
    [_items], namely the trimmed name, [z], the trimmed location and the
    trimmed notes, and the list grows by one. *)
Theorem add_item_appends_trimmed_entry (w : World) (z : Z) :
  Py.strip (name_var (self w)) <> [] ->
  Py.int (quantity_var (self w)) = Some z ->
  (1 <= z)%Z ->
  let a := self w in
  let w' := snd (add_item w) in
  fst (add_item w) = Return tt /\
  _items (self w')
  = _items a ++ [mkItem (VStr (Py.strip (name_var a))) (VInt z)
                        (VStr (Py.strip (location_var a)))
                        (VStr (Py.strip (notes_var a)))] /\
  List.length (_items (self w')) = S (List.length (_items a)).
Proof.
  intros Hn Hq Hz a w'. subst a w'.
  rewrite (add_item_good w (is_empty_false Hn) Hq Hz). simpl.
  repeat split. rewrite length_app. simpl. lia.
Qed.

Lemma add_item_appends_trimmed_entry_witness :
  let w := typed (Py.u " Schraube ") (Py.u "10") (Py.u " Regal A")
                 (Py.u "rostfrei ") in
  Py.strip (name_var (self w)) <> [] /\
  Py.int (quantity_var (self w)) = Some 10%Z /\
  _items (self (snd (add_item w)))
  = [mkItem (VStr (Py.u "Schraube")) (VInt 10)
            (VStr (Py.u "Regal A")) (VStr (Py.u "rostfrei"))].
Proof.
  intro w.
  assert (Hn : Py.strip (name_var (self w)) <> []) by (vm_compute; discriminate).
  assert (Hq : Py.int (quantity_var (self w)) = Some 10%Z) by reflexivity.
  split; [exact Hn | split; [exact Hq |]].
  assert (Hz : (1 <= 10)%Z) by lia.
  destruct (add_item_appends_trimmed_entry w Hn Hq Hz) as (_ & H & _).
  exact H.
Defined.

(** C5, as stated, fails when the name is blank as well: the name is checked
    first, and the warning shown is the one for the name. *)
Lemma add_item_bad_quantity_blank_name :
  let w := typed [] (Py.u "0") [] [] in
  bad_quantity (quantity_var (self w)) /\
  shown (snd (add_item w)) = shown w ++ [EmptyName] /\
  shown (snd (add_item w)) <> shown w ++ [InvalidQuantity].
Proof.
  vm_compute. repeat split; discriminate.
Qed.

(** C5 (amended): when the name is not blank after trimming and the quantity
    text is no integer or an integer below 1, [add_item] shows the
    InvalidQuantity warning and changes nothing else: [_items] is as before
    and no entry is appended.  The texts ["0"], ["-1"], ["abc"] and the empty
    text are all refused. *)
Theorem add_item_invalid_quantity (w : World) :
  Py.strip (name_var (self w)) <> [] ->
  bad_quantity (quantity_var (self w)) ->
  add_item w = (Return tt, with_dialog InvalidQuantity w) /\
  _items (self (snd (add_item w))) = _items (self w) /\
  shown (snd (add_item w)) = shown w ++ [InvalidQuantity] /\
  Forall bad_quantity [Py.u "0"; Py.u "-1"; Py.u "abc"; []].
Proof.
  intros Hn Hq.
  rewrite (add_item_bad_quantity w (is_empty_false Hn) Hq).
  repeat split.
  repeat constructor; vm_compute; reflexivity || exact I.
Qed.

Lemma add_item_invalid_quantity_witness :
  let w := typed (Py.u "Schraube") (Py.u "-1") (Py.u "Regal A") [] in
  Py.strip (name_var (self w)) <> [] /\
  bad_quantity (quantity_var (self w)) /\
  _items (self (snd (add_item w))) = [] /\
  shown (snd (add_item w)) = [InvalidQuantity].
Proof.
  intro w.
  assert (Hn : Py.strip (name_var (self w)) <> []) by (vm_compute; discriminate).
  assert (Hq : bad_quantity (quantity_var (self w))) by (vm_compute; reflexivity).
  split; [exact Hn | split; [exact Hq |]].
  destruct (add_item_invalid_quantity w Hn Hq) as (_ & Hi & Hs & _).
  split; [exact Hi | exact Hs].
Defined.

(** C6: when the name is empty or white space only, [add_item] shows the
    EmptyName warning and changes nothing else, whatever the other fields
    hold: [_items] is as before and no entry is appended. *)
Theorem add_item_empty_name (w : World) :
  forallb Py.isspace (name_var (self w)) = true ->
  add_item w = (Return tt, with_dialog EmptyName w) /\
  _items (self (snd (add_item w))) = _items (self w) /\
  shown (snd (add_item w)) = shown w ++ [EmptyName].
Proof.
  intros H. apply strip_blank_iff in H.
  rewrite (add_item_blank w H). repeat split.
Qed.

Lemma add_item_empty_name_witness :
  let w := typed (Py.u "   ") (Py.u "abc") (Py.u "Regal A") (Py.u "x") in
  forallb Py.isspace (name_var (self w)) = true /\
  _items (self (snd (add_item w))) = [] /\
  shown (snd (add_item w)) = [EmptyName].
Proof.
  intro w.
  assert (H : forallb Py.isspace (name_var (self w)) = true) by reflexivity.
  split; [exact H |].
  destruct (add_item_empty_name w H) as (_ & Hi & Hs).
  split; [exact Hi | exact Hs].
Defined.

(** C10: an [add_item] that passes both checks appends an item and leaves
    the form as [_reset_form] sets it (name, location and notes empty, the
    quantity text ["1"]); an [add_item] that fails a check shows the EmptyName
    or the InvalidQuantity warning and leaves the four form texts, and the
    whole window, as they were. *)
Theorem add_item_form (w : World) :
  let a := self w in
  let w' := snd (add_item w) in
  if accepts a
  then form (self w') = ([], Py.u "1", [], []) /\
       List.length (_items (self w')) = S (List.length (_items a)) /\
       shown w' = shown w
  else form (self w') = form a /\
       self w' = a /\
       (shown w' = shown w ++ [EmptyName] \/
        shown w' = shown w ++ [InvalidQuantity]).
Proof.
  intros a w'. subst a w'. unfold accepts.
  destruct (Py.is_empty (Py.strip (name_var (self w)))) eqn:Hn; simpl.
  - rewrite (add_item_blank w Hn). simpl. auto.
  - destruct (Py.int (quantity_var (self w))) as [z|] eqn:Hq.
    + destruct (1 <=? z)%Z eqn:Hz.
      * apply Z.leb_le in Hz. rewrite (add_item_good w Hn Hq Hz). simpl.
        repeat split. rewrite length_app. simpl. lia.
      * apply Z.leb_gt in Hz.
        rewrite (add_item_bad_quantity w Hn); [simpl; auto|].
        unfold bad_quantity. rewrite Hq. exact Hz.
    + rewrite (add_item_bad_quantity w Hn); [simpl; auto|].
      unfold bad_quantity. rewrite Hq. exact I.
Qed.

(** A quantity text of more digits than [Py.max_str_digits] is refused like
    any other text [int] does not read: 4300 ones are a quantity, 4301 ones
    bring the InvalidQuantity warning and add nothing. *)
Example add_item_too_many_digits :
  let long := typed (Py.u "A") (List.repeat 49%N 4301) [] [] in
  let short := typed (Py.u "A") (List.repeat 49%N 4300) [] [] in
  accepts (self long) = false /\
  add_item long = (Return tt, with_dialog InvalidQuantity long) /\
  accepts (self short) = true /\
  List.length (_items (self (snd (add_item short)))) = 1%nat.
Proof.
  intros long short.
  assert (Hl : Py.int (quantity_var (self long)) = None)
    by (vm_compute; reflexivity).
  split; [unfold accepts; now rewrite Hl, andb_false_r|].
  split.
  - apply add_item_bad_quantity; [reflexivity|].
    unfold bad_quantity. now rewrite Hl.
  - split; vm_compute; reflexivity.
Qed.

(** ** Lists and the table *)

Lemma without_length {A} (i : nat) (xs : list A) :
  (i < List.length xs)%nat ->
  S (List.length (without i xs)) = List.length xs.
Proof.
  intros H. unfold without.
  rewrite length_app, length_firstn, length_skipn. lia.
Qed.

Lemma without_before {A} (i j : nat) (xs : list A) :
  (j < i)%nat -> (i < List.length xs)%nat ->
  nth_error (without i xs) j = nth_error xs j.
Proof.
  intros Hj Hi. unfold without.
  rewrite nth_error_app1 by (rewrite length_firstn; lia).
  rewrite nth_error_firstn. apply Nat.ltb_lt in Hj. now rewrite Hj.
Qed.

Lemma without_after {A} (i j : nat) (xs : list A) :
  (i <= j)%nat -> (i < List.length xs)%nat ->
  nth_error (without i xs) j = nth_error xs (S j).
Proof.
  intros Hj Hi. unfold without.
  rewrite nth_error_app2 by (rewrite length_firstn; lia).
  rewrite length_firstn, nth_error_skipn.
  f_equal. lia.
Qed.

Lemma without_map {A B} (f : A -> B) (i : nat) (xs : list A) :
  map f (without i xs) = without i (map f xs).
Proof.
  unfold without. now rewrite map_app, firstn_map, skipn_map.
Qed.

Lemma without_Forall {A} (P : A -> Prop) (i : nat) (xs : list A) :
  Forall P xs -> Forall P (without i xs).
Proof.
  intros H. revert i. induction H as [|x xs Hx Hxs IH]; intros [|i].
  - constructor.
  - constructor.
  - exact Hxs.
  - change (without (S i) (x :: xs)) with (x :: without i xs).
    constructor; [exact Hx | apply IH].
Qed.

Lemma index_of_lt (id : Tk.iid) (rs : list Tk.row) (i : nat) :
  Tk.index_of id rs = Some i -> (i < List.length rs)%nat.
Proof.
  revert i. induction rs as [|r rs IH]; simpl; intros i H; [discriminate|].
  destruct (N.eqb (Tk.row_id r) id).
  - injection H as <-. lia.
  - destruct (Tk.index_of id rs) as [k|]; [|discriminate].
    injection H as <-. specialize (IH k eq_refl). lia.
Qed.

(** Deleting an item takes out the row at the item's index. *)
Lemma remove_row_without (id : Tk.iid) (rs : list Tk.row) (i : nat) :
  Tk.index_of id rs = Some i -> Tk.remove_row id rs = without i rs.
Proof.
  revert i. induction rs as [|r rs IH]; simpl; intros i H; [discriminate|].
  destruct (N.eqb (Tk.row_id r) id).
  - injection H as <-. reflexivity.
  - destruct (Tk.index_of id rs) as [k|]; [|discriminate].
    injection H as <-. rewrite (IH k eq_refl). reflexivity.
Qed.

Lemma delete_at_index (t : Tk.Treeview) (id : Tk.iid) (i : nat) :
  Tk.index t id = Some i ->
  Tk.delete t id
  = Some (Tk.mkTree (without i (Tk.rows t))
                    (filter (fun j => negb (N.eqb j id)) (Tk.selected t))
                    (Tk.serial t)).
Proof.
  intros H. unfold Tk.delete. rewrite H.
  unfold Tk.index in H. rewrite (remove_row_without _ _ H). reflexivity.
Qed.

Lemma list_del_in_range {A} (xs : list A) (i : nat) :
  (i < List.length xs)%nat -> list_del xs i = Some (without i xs).
Proof.
  intros H. unfold list_del. apply Nat.ltb_lt in H. now rewrite H.
Qed.

Lemma list_del_out_of_range {A} (xs : list A) (i : nat) :
  (List.length xs <= i)%nat -> list_del xs i = None.
Proof.
  intros H. unfold list_del. apply Nat.ltb_ge in H. now rewrite H.
Qed.

Lemma without_NoDup {A} (i : nat) (xs : list A) :
  NoDup xs -> NoDup (without i xs).
Proof.
  intros H. revert i. induction H as [|x xs Hx Hxs IH]; intros [|i].
  - constructor.
  - constructor.
  - exact Hxs.
  - change (without (S i) (x :: xs)) with (x :: without i xs).
    constructor; [|apply IH].
    intros Hin. apply Hx. unfold without in Hin.
    apply in_app_or in Hin as [Hin|Hin].
    + rewrite <- (firstn_skipn i xs). apply in_or_app. now left.
    + rewrite <- (firstn_skipn (S i) xs). apply in_or_app. now right.
Qed.

Lemma row_deleted_wf (t : Tk.Treeview) (id : Tk.iid) (i : nat) :
  table_wf t -> table_wf (row_deleted t id i).
Proof.
  intros (Hn & Hc & Hs). unfold table_wf, Tk.get_children. simpl.
  rewrite without_map. repeat split.
  - now apply without_NoDup.
  - now apply without_Forall.
  - now apply without_Forall.
Qed.

(** With distinct identifiers a row is found under its own identifier. *)
Lemma find_row (rs : list Tk.row) (r : Tk.row) :
  NoDup (map Tk.row_id rs) -> In r rs ->
  find (fun r' => N.eqb (Tk.row_id r') (Tk.row_id r)) rs = Some r.
Proof.
  induction rs as [|r0 rs IH]; simpl; intros Hn Hin; [contradiction|].
  inversion Hn as [|? ? Hnotin Hn']; subst.
  destruct (N.eqb_spec (Tk.row_id r0) (Tk.row_id r)) as [E|E].
  - destruct Hin as [->|Hin]; [reflexivity|].
    exfalso. apply Hnotin. rewrite E. now apply in_map.
  - destruct Hin as [->|Hin]; [congruence|]. now apply IH.
Qed.

Lemma item_of_row_four (r : Tk.row) :
  List.length (Tk.row_values r) = 4%nat ->
  exists x, item_of_row r = Some x /\ fields x = displayed r.
Proof.
  unfold item_of_row, displayed.
  destruct (Tk.row_values r) as [|a [|b [|c [|d [|e l]]]]]; try discriminate.
  intros _. eexists. split; reflexivity.
Qed.

(** ** [delete_selected] *)

Lemma rebuild_rows (t : Tk.Treeview) (w : World) (rs : list Tk.row) :
  (forall r, In r rs -> Tk.item_values t (Tk.row_id r) = Some (Tk.row_values r)) ->
  Forall (fun r => List.length (Tk.row_values r) = 4%nat) rs ->
  exists xs,
    map_m (fun id =>
             values <- lift TclError (Tk.item_values t id) ;;
             lift TypeError (InventoryItem_of (map VStr values)))%py
          (map Tk.row_id rs) w = (Return xs, w)
    /\ map fields xs = map displayed rs.
Proof.
  induction rs as [|r rs IH]; intros Hfind Hfour.
  - exists []. split; reflexivity.
  - inversion Hfour as [|? ? H4 Hfour']; subst.
    destruct IH as (xs & Hrun & Hxs); [intros; apply Hfind; now right | exact Hfour' |].
    destruct (item_of_row_four r H4) as (x & Hx & Hfx).
    exists (x :: xs). split.
    + unfold item_of_row, displayed in Hx.
      simpl. unfold bind at 1 2. unfold lift at 1.
      rewrite (Hfind r (or_introl eq_refl)). unfold ret at 1.
      rewrite Hx. unfold lift at 1, ret at 1, bind at 1.
      rewrite Hrun. reflexivity.
    + simpl. now rewrite Hfx, Hxs.
Qed.

Lemma items_from_table_wf (w : World) :
  table_wf (tree (self w)) ->
  exists xs,
    items_from_table w = (Return xs, w)
    /\ map fields xs = map displayed (Tk.rows (tree (self w))).
Proof.
  intros (Hn & Hfour & _). unfold items_from_table.
  unfold bind at 1, gets at 1. unfold Tk.get_children.
  apply rebuild_rows; [|exact Hfour].
  intros r Hin. unfold Tk.item_values.
  rewrite (find_row _ _ Hn Hin). reflexivity.
Qed.

Lemma delete_selected_none (w : World) :
  Tk.selection (tree (self w)) = [] ->
  delete_selected w = (Return tt, with_dialog NoSelection w).
Proof.
  intros H. unfold delete_selected. run. rewrite H. reflexivity.
Qed.

Lemma delete_selected_unknown (w : World) (first : Tk.iid) (rest : list Tk.iid) :
  Tk.selection (tree (self w)) = first :: rest ->
  Tk.index (tree (self w)) first = None ->
  delete_selected w = (Raise TclError, w).
Proof.
  intros Hs Hi. unfold delete_selected. run. rewrite Hs, Hi. reflexivity.
Qed.

Lemma delete_selected_in_range (w : World) (first : Tk.iid)
      (rest : list Tk.iid) (i : nat) :
  Tk.selection (tree (self w)) = first :: rest ->
  Tk.index (tree (self w)) first = Some i ->
  (i < List.length (_items (self w)))%nat ->
  delete_selected w
  = (Return tt,
     with_self (set_items (without i (_items (self w)))
                 (set_tree (row_deleted (tree (self w)) first i) (self w))) w).
Proof.
  intros Hs Hi Hlt. unfold delete_selected. run.
  rewrite Hs, Hi, (delete_at_index _ _ Hi). simpl.
  rewrite (list_del_in_range _ Hlt). reflexivity.
Qed.

Lemma delete_selected_out_of_range (w : World) (first : Tk.iid)
      (rest : list Tk.iid) (i : nat) :
  table_wf (tree (self w)) ->
  Tk.selection (tree (self w)) = first :: rest ->
  Tk.index (tree (self w)) first = Some i ->
  (List.length (_items (self w)) <= i)%nat ->
  exists xs,
    delete_selected w
    = (Return tt,
       with_self (set_items xs
                   (set_tree (row_deleted (tree (self w)) first i) (self w))) w)
    /\ map fields xs = map displayed (without i (Tk.rows (tree (self w)))).
Proof.
  intros Hwf Hs Hi Hge.
  pose (w1 := with_self (set_tree (row_deleted (tree (self w)) first i) (self w)) w).
  destruct (items_from_table_wf w1) as (xs & Hrun & Hxs).
  { apply row_deleted_wf, Hwf. }
  exists xs. split; [|exact Hxs].
  unfold delete_selected. run.
  rewrite Hs, Hi, (delete_at_index _ _ Hi). simpl.
  rewrite (list_del_out_of_range _ Hge). simpl.
  fold (row_deleted (tree (self w)) first i).
  change (items_from_table _) with (items_from_table w1).
  rewrite Hrun. reflexivity.
Qed.

(** C8: when the first selected row stands at index [i] of the table and [i]
    is within [_items], [delete_selected] removes exactly the entry at
    position [i]: the list is one shorter, the entries before [i] stay where
    they were, those after [i] move up by one, in their order; the table
    loses the row at the same position. *)
Theorem delete_selected_removes_entry (w : World) (first : Tk.iid)
        (rest : list Tk.iid) (i : nat) :
  Tk.selection (tree (self w)) = first :: rest ->
  Tk.index (tree (self w)) first = Some i ->
  (i < List.length (_items (self w)))%nat ->
  let xs := _items (self w) in
  let w' := snd (delete_selected w) in
  fst (delete_selected w) = Return tt /\
  S (List.length (_items (self w'))) = List.length xs /\
  _items (self w') = firstn i xs ++ skipn (S i) xs /\
  (forall j, (j < i)%nat -> nth_error (_items (self w')) j = nth_error xs j) /\
  (forall j, (i <= j)%nat ->
             nth_error (_items (self w')) j = nth_error xs (S j)) /\
  Tk.rows (tree (self w'))
  = firstn i (Tk.rows (tree (self w))) ++ skipn (S i) (Tk.rows (tree (self w))).
Proof.
  intros Hs Hi Hlt xs w'. subst xs w'.
  rewrite (delete_selected_in_range w Hs Hi Hlt). simpl.
  split; [reflexivity|].
  split; [now apply without_length|].
  split; [reflexivity|].
  split; [intros j Hj; now apply without_before|].
  split; [intros j Hj; now apply without_after|].
  reflexivity.
Qed.

Lemma delete_selected_removes_entry_witness :
  let w := mainloop [Typing (Py.u "A") (Py.u "1") [] []; Add;
                     Typing (Py.u "B") (Py.u "2") [] []; Add;
                     Selecting [0%nat]]
                    (start (fun _ => None)) in
  Tk.selection (tree (self w)) = [1%N] /\
  Tk.index (tree (self w)) 1%N = Some 0%nat /\
  _items (self (snd (delete_selected w)))
  = [mkItem (VStr (Py.u "B")) (VInt 2) (VStr []) (VStr [])].
Proof.
  intro w.
  assert (Hs : Tk.selection (tree (self w)) = [1%N]) by reflexivity.
  assert (Hi : Tk.index (tree (self w)) 1%N = Some 0%nat) by reflexivity.
  assert (Hlt : (0 < List.length (_items (self w)))%nat) by (vm_compute; lia).
  split; [exact Hs | split; [exact Hi |]].
  destruct (delete_selected_removes_entry w Hs Hi Hlt) as (_ & _ & H & _).
  exact H.
Defined.

(** C4: when the first selected row stands at an index of the table that is
    outside [_items], [delete_selected] removes the row from the table and
    rebuilds [_items] from the table: afterwards the list holds one item per
    remaining row, in the rows' order, each item's four fields being the four
    cell values of its row.  The table is as the window keeps it (distinct
    item identifiers, four cells a row). *)
Theorem delete_selected_resynchronizes (w : World) (first : Tk.iid)
        (rest : list Tk.iid) (i : nat) :
  table_wf (tree (self w)) ->
  Tk.selection (tree (self w)) = first :: rest ->
  Tk.index (tree (self w)) first = Some i ->
  (List.length (_items (self w)) <= i)%nat ->
  let w' := snd (delete_selected w) in
  fst (delete_selected w) = Return tt /\
  Tk.rows (tree (self w'))
  = firstn i (Tk.rows (tree (self w))) ++ skipn (S i) (Tk.rows (tree (self w))) /\
  map fields (_items (self w')) = map displayed (Tk.rows (tree (self w'))) /\
  List.length (_items (self w')) = List.length (Tk.rows (tree (self w'))).
Proof.
  intros Hwf Hs Hi Hge w'. subst w'.
  destruct (delete_selected_out_of_range w Hwf Hs Hi Hge) as (xs & -> & Hxs).
  simpl. repeat split; [exact Hxs|].
  rewrite <- (length_map fields), Hxs, length_map. reflexivity.
Qed.

Lemma delete_selected_resynchronizes_witness :
  table_wf (tree (self diverged)) /\
  Tk.selection (tree (self diverged)) = [3%N] /\
  Tk.index (tree (self diverged)) 3%N = Some 2%nat /\
  (List.length (_items (self diverged)) <= 2)%nat /\
  map fields (_items (self (snd (delete_selected diverged))))
  = map displayed (Tk.rows (tree (self (snd (delete_selected diverged))))).
Proof.
  assert (Hwf : table_wf (tree (self diverged))).
  { unfold table_wf. simpl. repeat split.
    - repeat constructor; simpl; intuition discriminate.
    - repeat constructor.
    - repeat constructor; discriminate. }
  assert (Hs : Tk.selection (tree (self diverged)) = [3%N]) by reflexivity.
  assert (Hi : Tk.index (tree (self diverged)) 3%N = Some 2%nat) by reflexivity.
  assert (Hge : (List.length (_items (self diverged)) <= 2)%nat) by (simpl; lia).
  split; [exact Hwf | split; [exact Hs | split; [exact Hi | split; [exact Hge|]]]].
  destruct (delete_selected_resynchronizes diverged Hwf Hs Hi Hge) as (_ & _ & H & _).
  exact H.
Defined.

(** The rebuilt items hold the cell texts: the quantity comes back as the
    text of the cell, not as the integer the entry was added with. *)
Example resynchronized_items :
  _items (self (snd (delete_selected diverged)))
  = [mkItem (VStr (Py.u "A")) (VStr (Py.u "1")) (VStr []) (VStr []);
     mkItem (VStr (Py.u "B")) (VStr (Py.u "2")) (VStr []) (VStr [])].
Proof. reflexivity. Qed.

(** ** [clear_items] *)

(** Deleting the children one after the other empties the table. *)
Lemma clear_loop (rs : list Tk.row) (w : World) (sel : list Tk.iid) (ser : N) :
  tree (self w) = Tk.mkTree rs sel ser ->
  exists sel',
    for_each (map Tk.row_id rs) tree_delete w
    = (Return tt, with_self (set_tree (Tk.mkTree [] sel' ser) (self w)) w).
Proof.
  revert w sel. induction rs as [|r rs IH]; intros w sel Ht.
  - exists sel. destruct w as [a sh f b]. destruct a. simpl in *. subst.
    reflexivity.
  - pose (sel1 := filter (fun j => negb (N.eqb j (Tk.row_id r))) sel).
    pose (w1 := with_self (set_tree (Tk.mkTree rs sel1 ser) (self w)) w).
    destruct (IH w1 sel1 eq_refl) as (sel' & Hrun).
    exists sel'. simpl. unfold bind at 1.
    assert (Hd : tree_delete (Tk.row_id r) w = (Return tt, w1)).
    { unfold tree_delete. run. rewrite Ht.
      unfold Tk.delete, Tk.index. simpl. rewrite N.eqb_refl. reflexivity. }
    rewrite Hd, Hrun. reflexivity.
Qed.

Lemma clear_items_yes (w : World) :
  exists sel',
    clear_items true w
    = (Return tt,
       with_self (set_items []
                   (set_tree (Tk.mkTree [] sel' (Tk.serial (tree (self w))))
                             (self w)))
                 (with_dialog
                    (Tk.askyesno (Py.u "Bestätigen")
                                 (Py.u "Alle Einträge wirklich löschen?")) w)).
Proof.
  set (d := Tk.askyesno _ _).
  destruct (@clear_loop (Tk.rows (tree (self w))) (with_dialog d w)
                        (Tk.selected (tree (self w))) (Tk.serial (tree (self w))))
    as (sel' & Hrun).
  { simpl. now destruct (tree (self w)). }
  exists sel'. unfold clear_items. fold d.
  unfold bind at 1. unfold show at 1. fold (with_dialog d w).
  unfold bind at 1, gets at 1. unfold bind at 1.
  unfold Tk.get_children.
  change (self (with_dialog d w)) with (self w) at 1.
  rewrite Hrun. reflexivity.
Qed.

Lemma clear_items_no (w : World) :
  self (snd (clear_items false w)) = self w.
Proof. reflexivity. Qed.

(** ** [export_csv] *)

Lemma keeps_self_bind {A B} (m : M A) (k : A -> M B) :
  keeps_self m -> (forall a, keeps_self (k a)) -> keeps_self (bind m k).
Proof.
  intros Hm Hk w. unfold bind. specialize (Hm w).
  destruct (m w) as [[a|e] w1]; simpl in *.
  - rewrite (Hk a w1). exact Hm.
  - exact Hm.
Qed.

Lemma keeps_self_ret {A} (a : A) : keeps_self (ret a).
Proof. intros w. reflexivity. Qed.

Lemma keeps_self_lift {A} (e : exn) (o : option A) : keeps_self (lift e o).
Proof. intros w. destruct o; reflexivity. Qed.

Lemma keeps_self_show (d : Tk.dialog) : keeps_self (show d).
Proof. intros w. reflexivity. Qed.

Lemma keeps_self_io : keeps_self io.
Proof. intros w. unfold io. destruct (io_budget w) as [[|n]|]; reflexivity. Qed.

Lemma keeps_self_put_file (path : str) (content : list byte) :
  keeps_self (put_file path content).
Proof. intros w. reflexivity. Qed.

Lemma keeps_self_gets {A} (f : InventoryApp -> A) : keeps_self (gets f).
Proof. intros w. reflexivity. Qed.

Lemma keeps_self_for_each {A} (xs : list A) (body : A -> M unit) :
  (forall x, keeps_self (body x)) -> keeps_self (for_each xs body).
Proof.
  intros H. induction xs as [|x xs IH]; simpl.
  - apply keeps_self_ret.
  - apply keeps_self_bind; [apply H | intros _; exact IH].
Qed.

Create HintDb keeps.
#[local] Hint Resolve keeps_self_ret keeps_self_lift keeps_self_show
  keeps_self_io keeps_self_put_file keeps_self_gets : keeps.

Lemma keeps_self_write (path text : str) : keeps_self (write path text).
Proof.
  unfold write.
  apply keeps_self_bind; [auto with keeps | intros bs].
  intros w. reflexivity.
Qed.

Lemma keeps_self_close (path : str) : keeps_self (close path).
Proof.
  intros w. unfold close.
  destruct (io_budget w) as [n|]; [|reflexivity].
  destruct (files w path) as [content|]; [|reflexivity].
  destruct (n <? List.length content)%nat; reflexivity.
Qed.

Lemma keeps_self_with_open {A} (path : str) (body : M A) :
  keeps_self body -> keeps_self (with_open path body).
Proof.
  intros Hb. unfold with_open, open_w.
  apply keeps_self_bind; [|intros _].
  { apply keeps_self_bind; auto with keeps. }
  intros w. specialize (Hb w). pose proof (keeps_self_close path) as Hc.
  destruct (body w) as [r w1]. specialize (Hc w1).
  destruct (close path w1) as [[[]|e] w2]; simpl in *; congruence.
Qed.

Lemma keeps_self_writerow (path : str) (names : list str) (d : Csv.dict) :
  keeps_self (DictWriter_writerow path names d).
Proof.
  unfold DictWriter_writerow.
  apply keeps_self_bind; [auto with keeps | intros fs].
  apply keeps_self_write.
Qed.

Lemma keeps_self_write_csv (path : str) : keeps_self (_write_csv path).
Proof.
  unfold _write_csv, DictWriter_writeheader.
  apply keeps_self_with_open.
  apply keeps_self_bind; [apply keeps_self_writerow | intros _].
  apply keeps_self_bind; [auto with keeps | intros xs].
  apply keeps_self_for_each. intros item. apply keeps_self_writerow.
Qed.

(** No path through [export_csv] assigns to the window: whatever the dialog
    returns and whatever the disk does, the application object is as before. *)
Lemma keeps_self_export_csv (chosen : str) : keeps_self (export_csv chosen).
Proof.
  unfold export_csv.
  apply keeps_self_bind; [auto with keeps | intros xs].
  destruct xs as [|x xs]; [auto with keeps|].
  apply keeps_self_bind; [auto with keeps | intros _].
  destruct (Py.is_empty chosen); [auto with keeps|].
  apply keeps_self_bind; [apply keeps_self_write_csv | intros _].
  auto with keeps.
Qed.

Lemma export_csv_empty (chosen : str) (w : World) :
  _items (self w) = [] ->
  export_csv chosen w = (Return tt, with_dialog EmptyLedger w).
Proof.
  intros H. unfold export_csv. run. rewrite H. reflexivity.
Qed.

(** C7: with an empty [_items], [export_csv] shows the EmptyLedger notice
    and does nothing else: no save dialog is opened, no file operation takes
    place, the files on the disk are as before, and [_items] is still
    empty. *)
Theorem export_csv_empty_ledger (chosen : str) (w : World) :
  _items (self w) = [] ->
  let w' := snd (export_csv chosen w) in
  fst (export_csv chosen w) = Return tt /\
  shown w' = shown w ++ [EmptyLedger] /\
  files w' = files w /\
  io_budget w' = io_budget w /\
  _items (self w') = [].
Proof.
  intros H w'. subst w'. rewrite (export_csv_empty chosen w H). simpl.
  repeat split. exact H.
Qed.

Lemma export_csv_empty_ledger_witness :
  let w := start (fun _ => None) in
  let w' := snd (export_csv (Py.u "out.csv") w) in
  _items (self w) = [] /\
  shown w' = [EmptyLedger] /\
  files w' (Py.u "out.csv") = None.
Proof.
  intros w w'.
  assert (H : _items (self w) = []) by reflexivity.
  split; [exact H|].
  destruct (export_csv_empty_ledger (Py.u "out.csv") w H) as (_ & Hs & Hf & _).
  split; [exact Hs|]. subst w'. rewrite Hf. reflexivity.
Defined.

(** ** What the event loop maintains *)

Lemma new_item_ok (a : InventoryApp) (z : Z) :
  Py.is_empty (Py.strip (name_var a)) = false -> (1 <= z)%Z ->
  entry_ok (new_item a z).
Proof.
  intros Hn Hz. unfold entry_ok, new_item.
  do 4 eexists. split; [reflexivity|]. split; [|exact Hz].
  intros E. rewrite E in Hn. discriminate.
Qed.

Lemma added_consistent (a : InventoryApp) (z : Z) :
  Py.is_empty (Py.strip (name_var a)) = false -> (1 <= z)%Z ->
  consistent a -> consistent (added a z).
Proof.
  intros Hn Hz (Hok & Hm). split.
  - simpl. apply Forall_app. split; [exact Hok|].
    constructor; [now apply new_item_ok | constructor].
  - unfold mirrors in *. simpl. rewrite !map_app, Hm. reflexivity.
Qed.

Lemma add_item_consistent (w : World) :
  consistent (self w) -> consistent (self (snd (add_item w))).
Proof.
  intros H.
  destruct (Py.is_empty (Py.strip (name_var (self w)))) eqn:Hn.
  - now rewrite (add_item_blank w Hn).
  - destruct (Py.int (quantity_var (self w))) as [z|] eqn:Hq.
    + destruct (Z.le_gt_cases 1 z) as [Hz|Hz].
      * rewrite (add_item_good w Hn Hq Hz). now apply added_consistent.
      * rewrite (add_item_bad_quantity w Hn); [exact H|].
        unfold bad_quantity. now rewrite Hq.
    + rewrite (add_item_bad_quantity w Hn); [exact H|].
      unfold bad_quantity. now rewrite Hq.
Qed.

Lemma mirrors_length (a : InventoryApp) :
  mirrors a -> List.length (Tk.rows (tree a)) = List.length (_items a).
Proof.
  intros H. rewrite <- (length_map Tk.row_values), H. apply length_map.
Qed.

(** While the table shows the items row for row, the index of a row of the
    table is an index of [_items]: the [except IndexError] branch is not
    entered. *)
Lemma delete_selected_consistent (w : World) :
  consistent (self w) -> consistent (self (snd (delete_selected w))).
Proof.
  intros (Hok & Hm).
  destruct (Tk.selection (tree (self w))) as [|first rest] eqn:Hs.
  - rewrite (delete_selected_none w Hs). now split.
  - destruct (Tk.index (tree (self w)) first) as [i|] eqn:Hi.
    + assert (Hlt : (i < List.length (_items (self w)))%nat).
      { rewrite <- (mirrors_length Hm). exact (index_of_lt _ _ Hi). }
      rewrite (delete_selected_in_range w Hs Hi Hlt). split; simpl.
      * now apply without_Forall.
      * unfold mirrors in *. simpl. rewrite !without_map, Hm. reflexivity.
    + rewrite (delete_selected_unknown w Hs Hi). now split.
Qed.

Lemma clear_items_consistent (answer : bool) (w : World) :
  consistent (self w) -> consistent (self (snd (clear_items answer w))).
Proof.
  intros H. destruct answer.
  - destruct (clear_items_yes w) as (sel' & ->). split; simpl.
    + constructor.
    + reflexivity.
  - exact H.
Qed.

Lemma step_consistent (w : World) (e : event) :
  consistent (self w) -> consistent (self (step w e)).
Proof.
  intros H. unfold step. destruct e as [n q l t|ps|b| | |answer|chosen]; simpl.
  - exact H.
  - exact H.
  - exact H.
  - now apply add_item_consistent.
  - now apply delete_selected_consistent.
  - now apply clear_items_consistent.
  - now rewrite keeps_self_export_csv.
Qed.

Lemma mainloop_consistent (es : list event) (w : World) :
  consistent (self w) -> consistent (self (mainloop es w)).
Proof.
  revert w. induction es as [|e es IH]; intros w H; simpl.
  - exact H.
  - apply IH. now apply step_consistent.
Qed.

Lemma init_consistent : consistent init.
Proof. split; [constructor | reflexivity]. Qed.

(** C3: after any sequence of events of the window (the user typing into
    the form and selecting rows, the add, delete, clear and export buttons,
    the disk changing its state), started from the empty window, every entry
    of [_items] fits the data model: its name is a non-empty text, its
    quantity an integer of at least 1, its location and notes texts. *)
Theorem ledger_entries_fit_data_model
        (es : list event) (disk : str -> option (list byte)) :
  Forall entry_ok (_items (self (mainloop es (start disk)))).
Proof.
  apply (mainloop_consistent es (start disk)). exact init_consistent.
Qed.

(** The table shows the items row for row after any sequence of events. *)
Lemma table_mirrors_ledger
      (es : list event) (disk : str -> option (list byte)) :
  mirrors (self (mainloop es (start disk))).
Proof.
  apply (mainloop_consistent es (start disk)). exact init_consistent.
Qed.

(** ** What an export writes *)

Lemma str_eqb_eq (a b : str) : str_eqb a b = true <-> a = b.
Proof.
  unfold str_eqb. destruct (list_eq_dec N.eq_dec a b); split; congruence.
Qed.

Lemma str_eqb_refl (a : str) : str_eqb a a = true.
Proof. now apply str_eqb_eq. Qed.

Lemma str_eqb_neq (a b : str) : a <> b -> str_eqb a b = false.
Proof.
  intros H. destruct (str_eqb a b) eqn:E; [|reflexivity].
  apply str_eqb_eq in E. contradiction.
Qed.

Lemma utf8_encode_app (a b : str) :
  Py.utf8_encode (a ++ b)
  = match Py.utf8_encode a, Py.utf8_encode b with
    | Some x, Some y => Some (x ++ y)
    | _, _ => None
    end.
Proof.
  induction a as [|c a IH]; simpl.
  - now destruct (Py.utf8_encode b).
  - rewrite IH. destruct (Py.utf8_encode_char c) as [x|]; [|reflexivity].
    destruct (Py.utf8_encode a) as [y|]; [|reflexivity].
    destruct (Py.utf8_encode b) as [z|]; [|reflexivity].
    now rewrite app_assoc.
Qed.

Lemma header_fields :
  Csv._dict_to_list fieldnames (Csv.header_dict fieldnames)
  = Some (map VStr fieldnames).
Proof. reflexivity. Qed.

Lemma row_fields (item : InventoryItem) :
  Csv._dict_to_list fieldnames (row_dict item) = Some (fields item).
Proof. reflexivity. Qed.

(** One [write] appends the encoded text to what the file holds; the disk
    is not asked. *)
Lemma write_sound (path text : str) (old bs : list byte) (w : World) :
  files w path = Some old ->
  Py.utf8_encode text = Some bs ->
  exists w',
    write path text w = (Return tt, w')
    /\ io_budget w' = io_budget w /\ self w' = self w /\ shown w' = shown w
    /\ stored path (old ++ bs) w w'.
Proof.
  intros Hf He. unfold write. run. rewrite He.
  unfold put_file. rewrite Hf. eexists. split; [reflexivity|].
  unfold stored. cbn [files self shown io_budget].
  do 3 (split; [reflexivity|]).
  split; [now rewrite str_eqb_refl|].
  intros p Hp. now rewrite (str_eqb_neq Hp).
Qed.

Lemma write_rows_sound (path : str) (xs : list InventoryItem) :
  forall (old bs : list byte) (w : World),
    files w path = Some old ->
    Py.utf8_encode (flat_map (fun item => Csv.writerow (fields item)) xs)
    = Some bs ->
    exists w',
      for_each xs (fun item => DictWriter_writerow path fieldnames (row_dict item)) w
      = (Return tt, w')
      /\ io_budget w' = io_budget w /\ self w' = self w /\ shown w' = shown w
      /\ stored path (old ++ bs) w w'.
Proof.
  induction xs as [|x xs IH]; intros old bs w Hf He.
  - simpl in He. injection He as <-. exists w. rewrite app_nil_r.
    split; [reflexivity|]. do 3 (split; [reflexivity|]).
    split; [exact Hf | reflexivity].
  - cbn [flat_map] in He. rewrite utf8_encode_app in He.
    destruct (Py.utf8_encode (Csv.writerow (fields x))) as [b1|] eqn:E1;
      [|discriminate].
    destruct (Py.utf8_encode (flat_map _ xs)) as [b2|] eqn:E2; [|discriminate].
    injection He as <-.
    destruct (@write_sound path _ old _ w Hf E1)
      as (w1 & Hrun1 & Hb1 & Hs1 & Hd1 & Hst1).
    destruct (IH (old ++ b1) b2 w1 (proj1 Hst1) eq_refl)
      as (w2 & Hrun2 & Hb2 & Hs2 & Hd2 & Hst2).
    exists w2. split.
    + simpl. unfold bind at 1. unfold DictWriter_writerow at 1.
      unfold bind at 1. rewrite row_fields. unfold lift, ret.
      rewrite Hrun1. exact Hrun2.
    + rewrite app_assoc. split; [now rewrite Hb2, Hb1|].
      split; [now rewrite Hs2, Hs1|].
      split; [now rewrite Hd2, Hd1|]. split; [apply Hst2|].
      intros p Hp. destruct Hst1 as (_ & H1). destruct Hst2 as (_ & H2).
      now rewrite (H2 p Hp), (H1 p Hp).
Qed.

(** The body of the [with] block, on a file just opened and with a text
    that encodes: the file object holds the encoded [csv_text] of the items,
    and the disk was not asked. *)
Lemma write_csv_body (path : str) (bs : list byte) (w : World) :
  files w path = Some [] ->
  Py.utf8_encode (csv_text (_items (self w))) = Some bs ->
  exists w',
    (DictWriter_writeheader path fieldnames ;;
     xs <- gets _items ;;
     for_each xs (fun item =>
                    DictWriter_writerow path fieldnames (row_dict item))) w
    = (Return tt, w')
    /\ io_budget w' = io_budget w /\ self w' = self w /\ shown w' = shown w
    /\ stored path bs w w'.
Proof.
  intros Hf0 He. unfold csv_text in He. rewrite utf8_encode_app in He.
  destruct (Py.utf8_encode (Csv.writerow (map VStr fieldnames))) as [b1|] eqn:E1;
    [|discriminate].
  destruct (Py.utf8_encode (flat_map _ (_items (self w)))) as [b2|] eqn:E2;
    [|discriminate].
  injection He as <-.
  destruct (@write_sound path _ [] _ w Hf0 E1)
    as (w1 & Hrun1 & Hb1 & Hs1 & Hd1 & Hst1).
  destruct (@write_rows_sound path (_items (self w)) ([] ++ b1) _ w1
                              (proj1 Hst1) E2)
    as (w2 & Hrun2 & Hb2 & Hs2 & Hd2 & Hst2).
  exists w2. split.
  - unfold bind at 1. unfold DictWriter_writeheader, DictWriter_writerow.
    unfold bind at 1. rewrite header_fields. unfold lift at 1, ret at 1.
    rewrite Hrun1. unfold bind at 1, gets at 1. rewrite Hs1. exact Hrun2.
  - split; [now rewrite Hb2, Hb1|]. split; [now rewrite Hs2, Hs1|].
    split; [now rewrite Hd2, Hd1|]. split; [apply Hst2|].
    intros p Hp. destruct Hst1 as (_ & H1). destruct Hst2 as (_ & H2).
    now rewrite (H2 p Hp), (H1 p Hp).
Qed.

(** The window and the screen after [open_w], with the file cut to length
    zero and [budget] left. *)
Lemma open_w_runs (path : str) (w : World) (budget : option nat) :
  io w = (Return tt, mkWorld (self w) (shown w) (files w) budget) ->
  open_w path w
  = (Return tt,
     mkWorld (self w) (shown w)
             (fun p => if str_eqb p path then Some [] else files w p) budget).
Proof.
  intros H. unfold open_w. unfold bind at 1. rewrite H. reflexivity.
Qed.

(** On a sound disk, with a text that encodes, [_write_csv] leaves the
    encoded [csv_text] of the items in the file and touches no other file. *)
Lemma write_csv_sound (path : str) (bs : list byte) (w : World) :
  io_budget w = None ->
  Py.utf8_encode (csv_text (_items (self w))) = Some bs ->
  exists w',
    _write_csv path w = (Return tt, w')
    /\ io_budget w' = None /\ self w' = self w /\ shown w' = shown w
    /\ stored path bs w w'.
Proof.
  intros Hb He.
  pose (w0 := mkWorld (self w) (shown w)
                      (fun p => if str_eqb p path then Some [] else files w p)
                      None).
  assert (H0 : open_w path w = (Return tt, w0)).
  { apply open_w_runs. unfold io. rewrite Hb. destruct w; simpl in *.
    now subst. }
  assert (Hf0 : files w0 path = Some []) by (simpl; now rewrite str_eqb_refl).
  destruct (@write_csv_body path bs w0 Hf0 He)
    as (w1 & Hrun & Hb1 & Hs1 & Hd1 & Hst1 & Hst2).
  exists w1. split.
  - unfold _write_csv, with_open. unfold bind at 1. rewrite H0, Hrun.
    unfold close. rewrite Hb1. reflexivity.
  - split; [exact Hb1|]. split; [exact Hs1|]. split; [exact Hd1|].
    split; [exact Hst1|].
    intros p Hp. rewrite (Hst2 p Hp). simpl. now rewrite (str_eqb_neq Hp).
Qed.

(** ** UTF-8 read back *)









(** ** Reading an export back *)
















(** A complete export: with an entry in the list, a file name chosen and a
    sound disk, [export_csv] writes the encoded [csv_text] to the chosen
    path, shows the save dialog and the final notice, and changes nothing
    else. *)
Lemma export_csv_sound (chosen : str) (w : World) (bs : list byte) :
  _items (self w) <> [] ->
  chosen <> [] ->
  io_budget w = None ->
  Py.utf8_encode (csv_text (_items (self w))) = Some bs ->
  let w' := snd (export_csv chosen w) in
  fst (export_csv chosen w) = Return tt /\
  stored chosen bs w w' /\
  self w' = self w /\
  shown w'
  = shown w ++ [Tk.asksaveasfilename (Py.u "CSV speichern") (Py.u ".csv");
                Tk.showinfo (Py.u "Export")
                            (Py.u "Datei gespeichert: " ++ chosen)].
Proof.
  intros Hx Hc Hb He w'. subst w'.
  pose (d := Tk.asksaveasfilename (Py.u "CSV speichern") (Py.u ".csv")).
  destruct (@write_csv_sound chosen bs (with_dialog d w) Hb He)
    as (w1 & Hrun & Hb1 & Hs1 & Hd1 & Hst).
  assert (Hexp : export_csv chosen w
                 = (Return tt,
                    with_dialog (Tk.showinfo (Py.u "Export")
                                   (Py.u "Datei gespeichert: " ++ chosen)) w1)).
  { unfold export_csv. unfold bind at 1, gets at 1.
    destruct (_items (self w)) as [|x xs] eqn:Ex; [congruence|].
    unfold bind at 1. unfold show at 1. fold d. fold (with_dialog d w).
    rewrite (is_empty_false Hc). unfold bind at 1, Path.
    rewrite Hrun. reflexivity. }
  rewrite Hexp. cbn [fst snd with_dialog files self shown].
  split; [reflexivity|]. split; [exact Hst|]. split; [exact Hs1|].
  rewrite Hd1. cbn [with_dialog shown]. now rewrite <- app_assoc.
Qed.



(** An export that raises got past the two early returns: there are
    entries, and a file name was chosen. *)
Lemma export_csv_raises (chosen : str) (w : World) (e : exn) :
  fst (export_csv chosen w) = Raise e ->
  _items (self w) <> [] /\ chosen <> [].
Proof.
  unfold export_csv. unfold bind at 1, gets at 1.
  destruct (_items (self w)) as [|x xs]; [discriminate|].
  unfold bind at 1, show at 1.
  destruct chosen as [|c chosen]; [discriminate|].
  intros _. split; discriminate.
Qed.

(** C9: when [export_csv] ends in an [OSError] (the file cannot be opened,
    or the disk fails while it is written), [_items], and the whole
    application object, are
    exactly as before the export.  The export can be tried again: once the
    disk is sound, the same callback with the same file name writes the
    complete file, whatever the failed attempt left at that path. *)
Theorem export_csv_failure_keeps_ledger (chosen : str) (w : World) :
  fst (export_csv chosen w) = Raise OSError ->
  let w' := snd (export_csv chosen w) in
  _items (self w') = _items (self w) /\
  self w' = self w /\
  (forall bs,
      Py.utf8_encode (csv_text (_items (self w))) = Some bs ->
      let retry := export_csv chosen (step w' (Disk None)) in
      fst retry = Return tt /\ files (snd retry) chosen = Some bs).
Proof.
  intros Hfail w'. subst w'.
  pose proof (keeps_self_export_csv chosen w) as Hself.
  destruct (export_csv_raises _ _ Hfail) as (Hx & Hc).
  split; [now rewrite Hself|]. split; [exact Hself|].
  intros bs He retry. subst retry.
  set (w2 := step (snd (export_csv chosen w)) (Disk None)).
  assert (H2 : self w2 = self w) by exact Hself.
  rewrite <- H2 in Hx, He.
  destruct (@export_csv_sound chosen w2 bs Hx Hc eq_refl He)
    as (Hret & (Hfile & _) & _).
  split; [exact Hret | exact Hfile].
Qed.

Lemma export_csv_failure_keeps_ledger_witness :
  let w := step two_entries (Disk (Some 2%nat)) in
  let w' := snd (export_csv (Py.u "out.csv") w) in
  fst (export_csv (Py.u "out.csv") w) = Raise OSError /\
  _items (self w') = example_entries /\
  files (snd (export_csv (Py.u "out.csv") (step w' (Disk None)))) (Py.u "out.csv")
  = Some example_file.
Proof.
  intros w w'.
  assert (H : fst (export_csv (Py.u "out.csv") w) = Raise OSError)
    by (vm_compute; reflexivity).
  split; [exact H|].
  destruct (export_csv_failure_keeps_ledger (Py.u "out.csv") w H)
    as (Hi & _ & Hretry).
  split; [subst w'; rewrite Hi; reflexivity|].
  apply (Hretry example_file). vm_compute. reflexivity.
Defined.

(** ** The table stays well formed *)

Lemma insert_end_wf (t : Tk.Treeview) (item : InventoryItem) :
  table_wf t -> table_wf (Tk.insert_end t (cells item)).
Proof.
  intros (Hn & Hc & Hs). unfold table_wf, Tk.get_children. simpl.
  rewrite map_app. simpl. split; [|split].
  - apply NoDup_app; [exact Hn | repeat constructor; simpl; tauto |].
    intros id Hin [<-|[]].
    apply in_map_iff in Hin as (r & Hr & Hin).
    rewrite Forall_forall in Hs. specialize (Hs r Hin). lia.
  - apply Forall_app. split; [exact Hc|]. repeat constructor.
  - apply Forall_app. split.
    + eapply Forall_impl; [|exact Hs]. simpl. intros r Hr. lia.
    + repeat constructor. simpl. lia.
Qed.

(** Every callback keeps the table well formed, from whatever state of the
    window it starts. *)
Lemma step_table_wf (w : World) (e : event) :
  table_wf (tree (self w)) -> table_wf (tree (self (step w e))).
Proof.
  intros H. unfold step. destruct e as [n q l t|ps|b| | |answer|chosen]; simpl.
  - exact H.
  - exact H.
  - exact H.
  - destruct (Py.is_empty (Py.strip (name_var (self w)))) eqn:Hn.
    + now rewrite (add_item_blank w Hn).
    + destruct (Py.int (quantity_var (self w))) as [z|] eqn:Hq.
      * destruct (Z.le_gt_cases 1 z) as [Hz|Hz].
        -- rewrite (add_item_good w Hn Hq Hz). simpl. now apply insert_end_wf.
        -- rewrite (add_item_bad_quantity w Hn); [exact H|].
           unfold bad_quantity. now rewrite Hq.
      * rewrite (add_item_bad_quantity w Hn); [exact H|].
        unfold bad_quantity. now rewrite Hq.
  - destruct (Tk.selection (tree (self w))) as [|first rest] eqn:Hs.
    + now rewrite (delete_selected_none w Hs).
    + destruct (Tk.index (tree (self w)) first) as [i|] eqn:Hi.
      * destruct (Nat.lt_ge_cases i (List.length (_items (self w)))) as [Hlt|Hge].
        -- rewrite (delete_selected_in_range w Hs Hi Hlt). simpl.
           now apply row_deleted_wf.
        -- destruct (delete_selected_out_of_range w H Hs Hi Hge) as (xs & -> & _).
           simpl. now apply row_deleted_wf.
      * now rewrite (delete_selected_unknown w Hs Hi).
  - destruct answer; [|exact H].
    destruct (clear_items_yes w) as (sel' & ->). simpl.
    repeat split; constructor.
  - now rewrite keeps_self_export_csv.
Qed.

(** * Further properties of the callbacks *)

(** ** What a callback leaves alone *)

Lemma preserves_bind {X A B} (f : World -> X) (m : M A) (k : A -> M B) :
  preserves f m -> (forall a, preserves f (k a)) -> preserves f (bind m k).
Proof.
  intros Hm Hk w. unfold bind. specialize (Hm w).
  destruct (m w) as [[a|e] w1]; simpl in *.
  - rewrite (Hk a w1). exact Hm.
  - exact Hm.
Qed.

Lemma preserves_try {X A} (f : World -> X) (body handler : M A)
      (cls : exn -> bool) :
  preserves f body -> preserves f handler ->
  preserves f (try_except body cls handler).
Proof.
  intros Hb Hh w. unfold try_except. specialize (Hb w).
  destruct (body w) as [[a|e] w1]; simpl in *; [exact Hb|].
  destruct (cls e); simpl; [|exact Hb].
  rewrite (Hh w1). exact Hb.
Qed.

Lemma preserves_lift {X A} (f : World -> X) (e : exn) (o : option A) :
  preserves f (lift e o).
Proof. intros w. destruct o; reflexivity. Qed.

Lemma preserves_for_each {X A} (f : World -> X) (xs : list A)
      (body : A -> M unit) :
  (forall x, preserves f (body x)) -> preserves f (for_each xs body).
Proof.
  intros H. induction xs as [|x xs IH]; simpl.
  - intros w. reflexivity.
  - apply preserves_bind; [apply H | intros _; exact IH].
Qed.

Lemma preserves_map_m {X A B} (f : World -> X) (g : A -> M B) (xs : list A) :
  (forall x, preserves f (g x)) -> preserves f (map_m g xs).
Proof.
  intros H. induction xs as [|x xs IH]; simpl.
  - intros w. reflexivity.
  - apply preserves_bind; [apply H | intros y].
    apply preserves_bind; [exact IH | intros ys]. intros w. reflexivity.
Qed.

(** Splits a computation along its binds, handlers, loops and branches;
    what is left are single steps, which leave [f] alone by computation. *)
Ltac keep :=
  repeat first
    [ apply preserves_bind; [|intros ?]
    | apply preserves_try
    | apply preserves_for_each; intros ?
    | apply preserves_map_m; intros ?
    | apply preserves_lift
    | match goal with
      | |- preserves _ (if ?b then _ else _) => destruct b
      | |- preserves _ (match ?x with _ => _ end) => destruct x
      end
    | (intros ?; reflexivity) ].

(** The files and the state of the disk. *)
Lemma add_item_keeps_disk :
  preserves (fun w => (files w, io_budget w)) add_item.
Proof.
  unfold add_item, read_quantity, _append_to_table, _reset_form. keep.
Qed.

Lemma delete_selected_keeps_disk :
  preserves (fun w => (files w, io_budget w)) delete_selected.
Proof.
  unfold delete_selected, tree_delete, items_from_table. keep.
Qed.

Lemma clear_items_keeps_disk (answer : bool) :
  preserves (fun w => (files w, io_budget w)) (clear_items answer).
Proof.
  unfold clear_items. keep.
Qed.

(** X11: the add, delete and clear buttons, typing and selecting never
    create, change or remove a file, in whatever state the window is; apart
    from the disk's own events, they attempt no file operation either. *)
Theorem only_export_touches_the_disk (w : World) (e : event) :
  (forall chosen, e <> Export chosen) ->
  files (step w e) = files w /\
  ((forall b, e <> Disk b) -> io_budget (step w e) = io_budget w).
Proof.
  intros Hexp. unfold step.
  destruct e as [n q l t|ps|b| | |answer|chosen]; simpl.
  - split; reflexivity.
  - split; reflexivity.
  - split; [reflexivity|]. intros H. now destruct (H b).
  - pose proof (add_item_keeps_disk w) as H. simpl in H.
    injection H as Hf Hb. now split.
  - pose proof (delete_selected_keeps_disk w) as H. simpl in H.
    injection H as Hf Hb. now split.
  - pose proof (clear_items_keeps_disk answer w) as H. simpl in H.
    injection H as Hf Hb. now split.
  - now destruct (Hexp chosen).
Qed.

Lemma only_export_touches_the_disk_witness :
  let disk := fun p => if str_eqb p (Py.u "alt.csv")
                       then Some [x41] else None in
  let w := step (step two_entries (Disk (Some 1%nat))) (Selecting [0%nat]) in
  let put := fun (d : str -> option (list byte)) (v : World) =>
               mkWorld (self v) (shown v) d (io_budget v) in
  files (step (put disk w) DeleteSelected) = disk /\
  io_budget (step (put disk w) DeleteSelected) = Some 1%nat /\
  List.length (_items (self (step (put disk w) DeleteSelected))) = 1%nat.
Proof.
  intros disk w put.
  assert (H : forall chosen, DeleteSelected <> Export chosen)
    by (intros chosen; discriminate).
  destruct (only_export_touches_the_disk (put disk w) H) as (Hf & Hb).
  split; [exact Hf|]. split; [|reflexivity].
  apply Hb. intros b. discriminate.
Defined.

(** ** [clear_items], both answers *)

(** X1: [clear_items] asks its question and returns normally in every state
    of the window.  On yes the list and the table are both empty afterwards;
    on no the window is exactly as before.  The form is untouched either
    way. *)
Theorem clear_items_empties_or_keeps (answer : bool) (w : World) :
  let w' := snd (clear_items answer w) in
  fst (clear_items answer w) = Return tt /\
  shown w' = shown w ++ [ClearQuestion] /\
  form (self w') = form (self w) /\
  if answer
  then _items (self w') = [] /\ Tk.rows (tree (self w')) = []
  else self w' = self w.
Proof.
  intros w'. subst w'. destruct answer.
  - destruct (clear_items_yes w) as (sel' & ->). simpl.
    repeat split.
  - repeat split.
Qed.

(** ** The early returns *)

(** X2: with no row selected, [delete_selected] shows the NoSelection
    notice and does nothing else: list, table and form are as before. *)
Theorem delete_selected_without_selection (w : World) :
  Tk.selection (tree (self w)) = [] ->
  let w' := snd (delete_selected w) in
  fst (delete_selected w) = Return tt /\
  shown w' = shown w ++ [NoSelection] /\
  self w' = self w.
Proof.
  intros H w'. subst w'. rewrite (delete_selected_none w H). repeat split.
Qed.

Lemma delete_selected_without_selection_witness :
  let w := two_entries in
  Tk.selection (tree (self w)) = [] /\
  shown (snd (delete_selected w)) = [NoSelection] /\
  _items (self (snd (delete_selected w))) = example_entries.
Proof.
  intros w.
  assert (H : Tk.selection (tree (self w)) = []) by reflexivity.
  destruct (delete_selected_without_selection w H) as (_ & Hs & Ha).
  split; [exact H|]. split; [exact Hs|]. rewrite Ha. reflexivity.
Defined.

(** X3: with entries in the list and the save dialog cancelled (it returns
    the empty text), [export_csv] has shown the dialog and nothing else: no
    file operation is attempted, no file changes, no notice follows. *)
Theorem export_csv_cancelled (w : World) :
  _items (self w) <> [] ->
  let w' := snd (export_csv [] w) in
  fst (export_csv [] w) = Return tt /\
  shown w' = shown w ++ [SaveDialog] /\
  files w' = files w /\
  io_budget w' = io_budget w /\
  self w' = self w.
Proof.
  intros H w'. subst w'.
  assert (Hrun : export_csv [] w = (Return tt, with_dialog SaveDialog w)).
  { unfold export_csv. run.
    destruct (_items (self w)) as [|x xs]; [congruence | reflexivity]. }
  rewrite Hrun. repeat split.
Qed.

Lemma export_csv_cancelled_witness :
  let w := two_entries in
  _items (self w) <> [] /\
  shown (snd (export_csv [] w)) = [SaveDialog] /\
  files (snd (export_csv [] w)) (Py.u "inventur.csv") = None.
Proof.
  intros w.
  assert (H : _items (self w) <> []) by (vm_compute; discriminate).
  destruct (export_csv_cancelled w H) as (_ & Hs & Hf & _).
  split; [exact H|]. split; [exact Hs|]. rewrite Hf. reflexivity.
Defined.

(** ** The window on a run of the event loop *)

Lemma index_of_in (id : Tk.iid) (rs : list Tk.row) :
  In id (map Tk.row_id rs) -> exists i, Tk.index_of id rs = Some i.
Proof.
  induction rs as [|r rs IH]; simpl; [contradiction|].
  intros Hin. destruct (N.eqb_spec (Tk.row_id r) id) as [E|E].
  - now exists 0%nat.
  - destruct Hin as [Hin|Hin]; [contradiction|].
    destruct (IH Hin) as (i & ->). now exists (S i).
Qed.

(** With distinct identifiers, the row at position [p] is found at [p]. *)
Lemma index_of_nth (rs : list Tk.row) (p : nat) (r : Tk.row) :
  NoDup (map Tk.row_id rs) -> nth_error rs p = Some r ->
  Tk.index_of (Tk.row_id r) rs = Some p.
Proof.
  revert p. induction rs as [|r0 rs IH]; intros [|p] Hn Hp; simpl in *;
    try discriminate.
  - injection Hp as ->. now rewrite N.eqb_refl.
  - inversion Hn as [|? ? Hnotin Hn']; subst.
    destruct (N.eqb_spec (Tk.row_id r0) (Tk.row_id r)) as [E|E].
    + exfalso. apply Hnotin. rewrite E. apply in_map.
      eapply nth_error_In, Hp.
    + now rewrite (IH p Hn' Hp).
Qed.

Lemma remove_row_keeps (id j : Tk.iid) (rs : list Tk.row) :
  j <> id -> In j (map Tk.row_id rs) ->
  In j (map Tk.row_id (Tk.remove_row id rs)).
Proof.
  intros Hj. induction rs as [|r rs IH]; simpl; [auto|].
  intros [E|Hin].
  - destruct (N.eqb_spec (Tk.row_id r) id) as [E'|E']; [congruence|].
    now left.
  - destruct (N.eqb_spec (Tk.row_id r) id) as [E'|E']; [exact Hin|].
    right. now apply IH.
Qed.

Lemma row_deleted_selection_wf (t : Tk.Treeview) (id : Tk.iid) (i : nat) :
  Tk.index t id = Some i ->
  selection_wf t -> selection_wf (row_deleted t id i).
Proof.
  intros Hi Hs. unfold selection_wf, Tk.get_children, row_deleted in *. simpl.
  unfold Tk.index in Hi. rewrite <- (remove_row_without _ _ Hi).
  apply Forall_forall. intros j Hj. apply filter_In in Hj as (Hj & Hne).
  rewrite Forall_forall in Hs.
  apply remove_row_keeps; [|now apply Hs].
  intros E. subst j. rewrite N.eqb_refl in Hne. discriminate.
Qed.

(** Deleting the children one after the other empties the table and takes
    every deleted item out of the selection. *)
Lemma clear_loop_selection (rs : list Tk.row) (w : World)
      (sel : list Tk.iid) (ser : N) :
  tree (self w) = Tk.mkTree rs sel ser ->
  exists sel',
    for_each (map Tk.row_id rs) tree_delete w
    = (Return tt, with_self (set_tree (Tk.mkTree [] sel' ser) (self w)) w)
    /\ forall id, In id sel' -> In id sel /\ ~ In id (map Tk.row_id rs).
Proof.
  revert w sel. induction rs as [|r rs IH]; intros w sel Ht.
  - exists sel. split.
    + destruct w as [a sh f b]. destruct a. simpl in *. subst. reflexivity.
    + intros id Hin. split; [exact Hin | intros []].
  - pose (sel1 := filter (fun j => negb (N.eqb j (Tk.row_id r))) sel).
    pose (w1 := with_self (set_tree (Tk.mkTree rs sel1 ser) (self w)) w).
    destruct (IH w1 sel1 eq_refl) as (sel' & Hrun & Hsel).
    exists sel'. split.
    + simpl. unfold bind at 1.
      assert (Hd : tree_delete (Tk.row_id r) w = (Return tt, w1)).
      { unfold tree_delete. run. rewrite Ht.
        unfold Tk.delete, Tk.index. simpl. rewrite N.eqb_refl. reflexivity. }
      rewrite Hd, Hrun. reflexivity.
    + intros id Hin. destruct (Hsel id Hin) as (H1 & H2).
      apply filter_In in H1 as (H1 & Hne). split; [exact H1|].
      simpl. intros [E|Hin']; [|now apply H2].
      subst id. rewrite N.eqb_refl in Hne. discriminate.
Qed.

Lemma clear_items_yes_selection (w : World) :
  selection_wf (tree (self w)) ->
  clear_items true w
  = (Return tt,
     with_self (set_items []
                 (set_tree (Tk.mkTree [] [] (Tk.serial (tree (self w))))
                           (self w)))
               (with_dialog ClearQuestion w)).
Proof.
  intros Hwf.
  destruct (@clear_loop_selection (Tk.rows (tree (self w)))
              (with_dialog ClearQuestion w)
              (Tk.selected (tree (self w))) (Tk.serial (tree (self w))))
    as (sel' & Hrun & Hsel).
  { simpl. now destruct (tree (self w)). }
  assert (Hnil : sel' = []).
  { destruct sel' as [|id sel']; [reflexivity|]. exfalso.
    destruct (Hsel id (or_introl eq_refl)) as (Hin & Hnot).
    unfold selection_wf in Hwf. rewrite Forall_forall in Hwf.
    exact (Hnot (Hwf id Hin)). }
  subst sel'. unfold clear_items. fold ClearQuestion.
  unfold bind at 1. unfold show at 1. fold (with_dialog ClearQuestion w).
  unfold bind at 1, gets at 1. unfold bind at 1.
  unfold Tk.get_children.
  change (self (with_dialog ClearQuestion w)) with (self w) at 1.
  rewrite Hrun. reflexivity.
Qed.

Lemma select_rows_wf (t : Tk.Treeview) (ps : list nat) :
  selection_wf (Tk.select_rows t ps).
Proof.
  unfold selection_wf, Tk.select_rows, Tk.get_children. simpl.
  apply Forall_forall. intros id Hin.
  apply in_flat_map in Hin as (p & _ & Hin).
  destruct (nth_error (Tk.rows t) p) as [r|] eqn:E; [|contradiction].
  destruct Hin as [<-|[]]. apply in_map. eapply nth_error_In, E.
Qed.

(** In a healthy window a selected row is deleted together with its
    entry. *)
Lemma delete_selected_healthy (w : World) (first : Tk.iid)
      (rest : list Tk.iid) :
  healthy (self w) ->
  Tk.selection (tree (self w)) = first :: rest ->
  exists i,
    Tk.index (tree (self w)) first = Some i /\
    (i < List.length (_items (self w)))%nat /\
    delete_selected w
    = (Return tt,
       with_self (set_items (without i (_items (self w)))
                   (set_tree (row_deleted (tree (self w)) first i) (self w))) w).
Proof.
  intros ((_ & Hm) & _ & Hsel) Hs.
  unfold selection_wf in Hsel. unfold Tk.selection in Hs. rewrite Hs in Hsel.
  inversion Hsel as [|? ? Hin _]; subst.
  destruct (index_of_in _ _ Hin) as (i & Hi).
  exists i. split; [exact Hi|].
  assert (Hlt : (i < List.length (_items (self w)))%nat).
  { rewrite <- (mirrors_length Hm). exact (index_of_lt _ _ Hi). }
  split; [exact Hlt|]. now apply (delete_selected_in_range w Hs Hi Hlt).
Qed.

Lemma step_healthy (w : World) (e : event) :
  healthy (self w) -> healthy (self (step w e)).
Proof.
  intros H. split; [|split].
  - apply step_consistent, H.
  - apply step_table_wf, H.
  - destruct H as (Hc & Hwf & Hsel). unfold step.
    destruct e as [n q l t|ps|b| | |answer|chosen]; simpl.
    + exact Hsel.
    + apply select_rows_wf.
    + exact Hsel.
    + destruct (Py.is_empty (Py.strip (name_var (self w)))) eqn:Hn.
      * now rewrite (add_item_blank w Hn).
      * assert (Hbad : bad_quantity (quantity_var (self w)) ->
                       selection_wf (tree (self (snd (add_item w))))).
        { intros Hq. now rewrite (add_item_bad_quantity w Hn Hq). }
        destruct (Py.int (quantity_var (self w))) as [z|] eqn:Hq.
        -- destruct (Z.le_gt_cases 1 z) as [Hz|Hz].
           ++ rewrite (add_item_good w Hn Hq Hz).
              unfold selection_wf, Tk.get_children in *. simpl.
              eapply Forall_impl; [|exact Hsel]. simpl. intros id Hin.
              rewrite map_app. apply in_or_app. now left.
           ++ apply Hbad. unfold bad_quantity. now rewrite Hq.
        -- apply Hbad. unfold bad_quantity. now rewrite Hq.
    + destruct (Tk.selection (tree (self w))) as [|first rest] eqn:Hs.
      * now rewrite (delete_selected_none w Hs).
      * destruct (@delete_selected_healthy w first rest (conj Hc (conj Hwf Hsel)) Hs)
          as (i & Hi & _ & ->).
        simpl. now apply row_deleted_selection_wf.
    + destruct answer; [|exact Hsel].
      rewrite (clear_items_yes_selection w Hsel). constructor.
    + now rewrite keeps_self_export_csv.
Qed.

Lemma mainloop_healthy (es : list event) (w : World) :
  healthy (self w) -> healthy (self (mainloop es w)).
Proof.
  revert w. induction es as [|e es IH]; intros w H; simpl.
  - exact H.
  - apply IH. now apply step_healthy.
Qed.

Lemma init_healthy : healthy init.
Proof.
  split; [exact init_consistent|]. split.
  - repeat split; constructor.
  - constructor.
Qed.

Lemma run_healthy (es : list event) (disk : str -> option (list byte)) :
  healthy (self (mainloop es (start disk))).
Proof. apply (mainloop_healthy es (start disk)). exact init_healthy. Qed.

(** X5: after any sequence of events from the empty window, the table shows
    the entries row for row: as many rows as entries, each row's four cells
    being the entry's name, the decimal text of its quantity, its location
    and its notes; the rows carry distinct item identifiers, and every
    selected item is a row of the table. *)
Theorem table_shows_the_ledger
        (es : list event) (disk : str -> option (list byte)) :
  let a := self (mainloop es (start disk)) in
  map Tk.row_values (Tk.rows (tree a)) = map cells (_items a) /\
  List.length (Tk.rows (tree a)) = List.length (_items a) /\
  NoDup (Tk.get_children (tree a)) /\
  (forall id, In id (Tk.selection (tree a)) -> In id (Tk.get_children (tree a))).
Proof.
  intros a. subst a.
  destruct (run_healthy es disk) as ((_ & Hm) & (Hn & _) & Hsel).
  split; [exact Hm|]. split; [now apply mirrors_length|].
  split; [exact Hn|].
  intros id. unfold selection_wf in Hsel. rewrite Forall_forall in Hsel.
  apply Hsel.
Qed.

(** X6: on a run from the empty window no callback other than the export
    ever raises: typing, selecting, add, delete and clear return normally
    after any sequence of events. *)
Theorem buttons_never_raise
        (es : list event) (disk : str -> option (list byte)) (e : event) :
  (forall chosen, e <> Export chosen) ->
  fst (callback e (mainloop es (start disk))) = Return tt.
Proof.
  intros Hexp. set (w := mainloop es (start disk)).
  pose proof (run_healthy es disk) as H. fold w in H.
  destruct e as [n q l t|ps|b| | |answer|chosen]; simpl.
  - reflexivity.
  - reflexivity.
  - reflexivity.
  - destruct (Py.is_empty (Py.strip (name_var (self w)))) eqn:Hn.
    + now rewrite (add_item_blank w Hn).
    + destruct (Py.int (quantity_var (self w))) as [z|] eqn:Hq.
      * destruct (Z.le_gt_cases 1 z) as [Hz|Hz].
        -- now rewrite (add_item_good w Hn Hq Hz).
        -- rewrite (add_item_bad_quantity w Hn); [reflexivity|].
           unfold bad_quantity. now rewrite Hq.
      * rewrite (add_item_bad_quantity w Hn); [reflexivity|].
        unfold bad_quantity. now rewrite Hq.
  - destruct (Tk.selection (tree (self w))) as [|first rest] eqn:Hs.
    + now rewrite (delete_selected_none w Hs).
    + destruct (@delete_selected_healthy w first rest H Hs) as (i & _ & _ & ->).
      reflexivity.
  - destruct answer; [|reflexivity].
    destruct (clear_items_yes w) as (sel' & ->). reflexivity.
  - now destruct (Hexp chosen).
Qed.

Lemma buttons_never_raise_witness :
  let es := [Typing (Py.u "A") (Py.u "1") [] []; Add; Selecting [0%nat; 7%nat];
             DeleteSelected] in
  fst (callback DeleteSelected (mainloop es (start (fun _ => None))))
  = Return tt /\
  shown (mainloop (es ++ [DeleteSelected]) (start (fun _ => None)))
  = [NoSelection].
Proof.
  intros es.
  assert (H : forall chosen, DeleteSelected <> Export chosen)
    by (intros chosen; discriminate).
  split; [|reflexivity].
  exact (@buttons_never_raise es (fun _ => None) DeleteSelected H).
Defined.

(** ** Selecting and deleting *)

Lemma select_delete_healthy (w : World) (p : nat) :
  healthy (self w) ->
  (p < List.length (_items (self w)))%nat ->
  callback DeleteSelected (step w (Selecting [p]))
  = (Return tt,
     with_self
       (set_items (without p (_items (self w)))
          (set_tree (Tk.mkTree (without p (Tk.rows (tree (self w)))) []
                               (Tk.serial (tree (self w))))
                    (self w))) w).
Proof.
  intros ((Hok & Hm) & (Hn & _) & _) Hp.
  rewrite <- (mirrors_length Hm) in Hp.
  destruct (nth_error (Tk.rows (tree (self w))) p) as [r|] eqn:E;
    [|apply nth_error_None in E; lia].
  set (w1 := step w (Selecting [p])).
  assert (Hs : Tk.selection (tree (self w1)) = [Tk.row_id r]).
  { unfold w1, step. simpl. unfold Tk.selection, Tk.select_rows. simpl.
    now rewrite E. }
  assert (Hi : Tk.index (tree (self w1)) (Tk.row_id r) = Some p).
  { unfold w1, step. simpl. unfold Tk.index, Tk.select_rows. simpl.
    now apply index_of_nth. }
  assert (Hlt : (p < List.length (_items (self w1)))%nat).
  { unfold w1, step. simpl. rewrite <- (mirrors_length Hm). exact Hp. }
  simpl. rewrite (delete_selected_in_range w1 Hs Hi Hlt).
  unfold w1, step, row_deleted. simpl. rewrite E. simpl.
  rewrite N.eqb_refl. reflexivity.
Qed.

(** X7: on a run from the empty window, clicking the row at position [p] of
    the table and pressing the delete button removes exactly the entry at
    position [p] of the list and that row of the table: the delete returns
    normally, shows nothing, and leaves the other entries in their order and
    the form as it was. *)
Theorem click_and_delete
        (es : list event) (disk : str -> option (list byte)) (p : nat) :
  let w := mainloop es (start disk) in
  (p < List.length (_items (self w)))%nat ->
  let w' := mainloop [Selecting [p]; DeleteSelected] w in
  _items (self w')
  = firstn p (_items (self w)) ++ skipn (S p) (_items (self w)) /\
  Tk.rows (tree (self w'))
  = firstn p (Tk.rows (tree (self w))) ++ skipn (S p) (Tk.rows (tree (self w))) /\
  form (self w') = form (self w) /\
  shown w' = shown w /\
  fst (callback DeleteSelected (step w (Selecting [p]))) = Return tt.
Proof.
  intros w Hp w'. subst w'.
  pose proof (run_healthy es disk) as H. fold w in H.
  change (mainloop [Selecting [p]; DeleteSelected] w)
    with (snd (callback DeleteSelected (step w (Selecting [p])))).
  rewrite (select_delete_healthy w H Hp). simpl. repeat split.
Qed.

Lemma click_and_delete_witness :
  let es := [Typing (Py.u "A") (Py.u "1") [] []; Add;
             Typing (Py.u "B") (Py.u "2") [] []; Add] in
  let w := mainloop es (start (fun _ => None)) in
  (0 < List.length (_items (self w)))%nat /\
  _items (self (mainloop [Selecting [0%nat]; DeleteSelected] w))
  = [mkItem (VStr (Py.u "B")) (VInt 2) (VStr []) (VStr [])].
Proof.
  intros es w.
  assert (Hp : (0 < List.length (_items (self w)))%nat) by (vm_compute; lia).
  split; [exact Hp|].
  destruct (@click_and_delete es (fun _ => None) 0%nat Hp) as (H & _).
  exact H.
Defined.

Lemma without_last {A} (xs : list A) (x : A) :
  without (List.length xs) (xs ++ [x]) = xs.
Proof.
  induction xs as [|y xs IH]; [reflexivity|].
  change (without (List.length (y :: xs)) ((y :: xs) ++ [x]))
    with (y :: without (List.length xs) (xs ++ [x])).
  now rewrite IH.
Qed.

(** X8: on a run from the empty window, adding an entry and then deleting
    the row it got (the last one) gives back the list and the rows of the
    table as they were before the add. *)
Theorem add_then_delete_restores
        (es : list event) (disk : str -> option (list byte))
        (n q l t : str) (z : Z) :
  Py.strip n <> [] ->
  Py.int q = Some z ->
  (1 <= z)%Z ->
  let w := mainloop es (start disk) in
  let last := List.length (_items (self w)) in
  let w' := mainloop [Typing n q l t; Add; Selecting [last]; DeleteSelected] w in
  _items (self w') = _items (self w) /\
  Tk.rows (tree (self w')) = Tk.rows (tree (self w)).
Proof.
  intros Hn Hq Hz w last w'. subst w' last.
  pose proof (run_healthy es disk) as H. fold w in H.
  set (w1 := step w (Typing n q l t)).
  assert (Hadd : add_item w1 = (Return tt, with_self (added (self w1) z) w1)).
  { apply add_item_good; [apply is_empty_false, Hn | exact Hq | exact Hz]. }
  set (w2 := step w1 Add).
  assert (H2 : healthy (self w2)) by (apply step_healthy, step_healthy, H).
  assert (Hi : _items (self w2) = _items (self w) ++ [new_item (self w1) z]).
  { unfold w2, step. simpl. now rewrite Hadd. }
  assert (Hr : Tk.rows (tree (self w2))
               = Tk.rows (tree (self w))
                 ++ [Tk.mkRow (Tk.serial (tree (self w)) + 1)%N
                              (cells (new_item (self w1) z))]).
  { unfold w2, step. simpl. now rewrite Hadd. }
  assert (Hp : (List.length (_items (self w)) < List.length (_items (self w2)))%nat).
  { rewrite Hi, length_app. simpl. lia. }
  change (mainloop [Typing n q l t; Add;
                    Selecting [List.length (_items (self w))]; DeleteSelected] w)
    with (snd (callback DeleteSelected
                 (step w2 (Selecting [List.length (_items (self w))])))).
  rewrite (select_delete_healthy w2 H2 Hp). simpl.
  rewrite Hi, Hr, without_last.
  destruct H as ((_ & Hm) & _).
  rewrite <- (mirrors_length Hm), without_last. split; reflexivity.
Qed.

Lemma add_then_delete_restores_witness :
  let w := two_entries in
  Py.strip (Py.u " Feder ") <> [] /\
  Py.int (Py.u "7") = Some 7%Z /\
  _items (self (mainloop [Typing (Py.u " Feder ") (Py.u "7") [] (Py.u "neu");
                          Add; Selecting [2%nat]; DeleteSelected] w))
  = example_entries.
Proof.
  intros w.
  assert (Hn : Py.strip (Py.u " Feder ") <> []) by (vm_compute; discriminate).
  assert (Hq : Py.int (Py.u "7") = Some 7%Z) by reflexivity.
  assert (Hz : (1 <= 7)%Z) by lia.
  split; [exact Hn|]. split; [exact Hq|].
  destruct (@add_then_delete_restores
              [Typing (Py.u "Schraube") (Py.u "10") (Py.u "Regal A")
                      (Py.u "rostfrei"); Add;
               Typing (Py.u "Mutter") (Py.u "25") (Py.u "Regal B") []; Add]
              (fun _ => None) (Py.u " Feder ") (Py.u "7") [] (Py.u "neu") 7%Z
              Hn Hq Hz) as (H & _).
  exact H.
Defined.

(** ** An export on a failing disk *)




(** ** Stored texts are trimmed *)

Lemma lstrip_with_suffix (drop : char -> bool) (s : str) :
  exists p, s = p ++ Py.lstrip_with drop s.
Proof.
  induction s as [|c s (p & IH)]; simpl.
  - now exists [].
  - destruct (drop c).
    + exists (c :: p). simpl. now rewrite <- IH.
    + now exists [].
Qed.

(** What [strip] returns neither starts nor ends with white space. *)
Lemma strip_trimmed (s : str) : trimmed (Py.strip s).
Proof.
  unfold trimmed, Py.strip, Py.strip_with, Py.rstrip_with.
  set (t := Py.lstrip_with Py.isspace s).
  set (v := Py.lstrip_with Py.isspace (rev t)).
  pose proof (lstrip_with_head Py.isspace s) as Ht. fold t in Ht.
  pose proof (lstrip_with_head Py.isspace (rev t)) as Hv. fold v in Hv.
  split.
  - destruct (lstrip_with_suffix Py.isspace (rev t)) as (p & Hp). fold v in Hp.
    assert (E : t = rev v ++ rev p).
    { rewrite <- (rev_involutive t), Hp. apply rev_app_distr. }
    destruct (rev v) as [|c r]; [exact I|].
    rewrite E in Ht. exact Ht.
  - rewrite rev_involutive. exact Hv.
Qed.

Lemma new_item_trimmed (a : InventoryApp) (z : Z) :
  entry_trimmed (new_item a z).
Proof.
  unfold entry_trimmed, new_item. do 4 eexists.
  split; [reflexivity|]. repeat split; apply strip_trimmed.
Qed.

Lemma step_trimmed (w : World) (e : event) :
  healthy (self w) ->
  Forall entry_trimmed (_items (self w)) ->
  Forall entry_trimmed (_items (self (step w e))).
Proof.
  intros H Ht. unfold step.
  destruct e as [n q l t|ps|b| | |answer|chosen]; simpl.
  - exact Ht.
  - exact Ht.
  - exact Ht.
  - destruct (Py.is_empty (Py.strip (name_var (self w)))) eqn:Hn.
    + now rewrite (add_item_blank w Hn).
    + destruct (Py.int (quantity_var (self w))) as [z|] eqn:Hq.
      * destruct (Z.le_gt_cases 1 z) as [Hz|Hz].
        -- rewrite (add_item_good w Hn Hq Hz). simpl.
           apply Forall_app. split; [exact Ht|].
           constructor; [apply new_item_trimmed | constructor].
        -- rewrite (add_item_bad_quantity w Hn); [exact Ht|].
           unfold bad_quantity. now rewrite Hq.
      * rewrite (add_item_bad_quantity w Hn); [exact Ht|].
        unfold bad_quantity. now rewrite Hq.
  - destruct (Tk.selection (tree (self w))) as [|first rest] eqn:Hs.
    + now rewrite (delete_selected_none w Hs).
    + destruct (@delete_selected_healthy w first rest H Hs) as (i & _ & _ & ->).
      simpl. now apply without_Forall.
  - destruct answer; [|exact Ht].
    destruct (clear_items_yes w) as (sel' & ->). constructor.
  - now rewrite keeps_self_export_csv.
Qed.

(** X9: after any sequence of events from the empty window, the name, the
    location and the notes of every entry are trimmed: none of them starts
    or ends with a white-space character. *)
Theorem stored_texts_are_trimmed
        (es : list event) (disk : str -> option (list byte)) :
  Forall entry_trimmed (_items (self (mainloop es (start disk)))).
Proof.
  assert (H : forall es w,
             healthy (self w) -> Forall entry_trimmed (_items (self w)) ->
             Forall entry_trimmed (_items (self (mainloop es w)))).
  { clear es. intros es. induction es as [|e es IH]; intros w Hh Ht; simpl.
    - exact Ht.
    - apply IH; [now apply step_healthy | now apply step_trimmed]. }
  apply H; [exact init_healthy | constructor].
Qed.

(** ** Numbers as texts and back *)

Lemma int_digits_step (acc k : Z) (c : char) (r : str) :
  N.eqb c 95 = false ->
  Py.decimal c = Some k ->
  Py.int_digits acc false (c :: r) = Py.int_digits (10 * acc + k) false r.
Proof.
  intros H95 Hd. cbn [Py.int_digits]. now rewrite H95, Hd.
Qed.

(** Reading the digits of a decimal numeral gives its value. *)
Lemma int_digits_uint (d : Decimal.uint) :
  forall acc, Py.int_digits acc false (Py.uint_digits d)
              = Some (uint_value acc d).
Proof.
  induction d as [|d IH|d IH|d IH|d IH|d IH|d IH|d IH|d IH|d IH|d IH];
    intros acc; [reflexivity|..];
    cbn [Py.uint_digits uint_value];
    (erewrite int_digits_step; [apply IH | reflexivity | reflexivity]).
Qed.

Lemma uint_value_acc (d : Decimal.uint) :
  forall p, uint_value (Z.pos p) d = Z.pos (Pos.of_uint_acc d p).
Proof.
  induction d as [|d IH|d IH|d IH|d IH|d IH|d IH|d IH|d IH|d IH|d IH];
    intros p; [reflexivity|..];
    cbn [uint_value Pos.of_uint_acc]; rewrite <- IH; f_equal; lia.
Qed.

Lemma uint_value_of_uint (d : Decimal.uint) :
  uint_value 0 d = Z.of_uint d.
Proof.
  unfold Z.of_uint.
  induction d as [|d IH|d IH|d IH|d IH|d IH|d IH|d IH|d IH|d IH|d IH];
    [reflexivity | exact IH | ..];
    cbn [uint_value Pos.of_uint]; apply uint_value_acc.
Qed.

(** The digits of a numeral are all counted: none is an underscore. *)
Lemma count_digits_uint (d : Decimal.uint) :
  Py.count_digits (Py.uint_digits d) = N.of_nat (Decimal.nb_digits d).
Proof.
  unfold Py.count_digits. f_equal.
  induction d as [|d IH|d IH|d IH|d IH|d IH|d IH|d IH|d IH|d IH|d IH];
    [reflexivity|..];
    cbn [Py.uint_digits Decimal.nb_digits];
    match goal with
    | |- List.length (filter ?f (?c :: _)) = _ =>
        change (filter f (c :: Py.uint_digits d))
          with (c :: filter f (Py.uint_digits d))
    end; cbn [List.length]; now rewrite IH.
Qed.

Lemma int_unsigned_uint (d : Decimal.uint) :
  d <> Decimal.Nil ->
  (N.of_nat (Decimal.nb_digits d) <= Py.max_str_digits)%N ->
  Py.int_unsigned (Py.uint_digits d) = Some (uint_value 0 d).
Proof.
  intros H Hc.
  rewrite <- count_digits_uint in Hc. apply N.ltb_ge in Hc.
  destruct d; [congruence|..];
    cbn [Py.uint_digits] in *; unfold Py.int_unsigned;
    rewrite Hc;
    match goal with
    | |- context [Py.decimal ?c] =>
        let v := eval vm_compute in (Py.decimal c) in
        change (Py.decimal c) with v
    end;
    cbv beta iota; cbn [uint_value];
    match goal with
    | |- context [Py.uint_digits ?r] => exact (int_digits_uint r _)
    end.
Qed.

Lemma uint_digits_no_space (d : Decimal.uint) :
  forallb (fun c => negb (Py.int_space c)) (Py.uint_digits d) = true.
Proof.
  induction d; [reflexivity|..]; cbn [Py.uint_digits forallb];
    rewrite IHd; reflexivity.
Qed.

(** A text without a character to drop at either end is its own [strip]. *)
Lemma strip_with_keep (drop : char -> bool) (s : str) :
  forallb (fun c => negb (drop c)) s = true -> Py.strip_with drop s = s.
Proof.
  intros H.
  assert (L : forall u, forallb (fun c => negb (drop c)) u = true ->
                        Py.lstrip_with drop u = u).
  { intros [|c u]; simpl; [reflexivity|]. intros Hu.
    apply andb_prop in Hu as [Hc _]. apply negb_true_iff in Hc.
    now rewrite Hc. }
  unfold Py.strip_with, Py.rstrip_with. rewrite (L s H).
  rewrite L; [apply rev_involutive|].
  rewrite <- H. clear. induction s as [|c s IH]; simpl; [reflexivity|].
  rewrite forallb_app, IH. simpl. rewrite andb_true_r. apply andb_comm.
Qed.

(** *** The size of a numeral *)

(** A numeral of [n] digits after the value [acc] is worth at least [acc]
    shifted by [n] places. *)
Lemma uint_value_lower (d : Decimal.uint) :
  forall acc, (0 <= acc)%Z ->
              (acc * 10 ^ Z.of_nat (Decimal.nb_digits d) <= uint_value acc d)%Z.
Proof.
  induction d as [|d IH|d IH|d IH|d IH|d IH|d IH|d IH|d IH|d IH|d IH];
    intros acc Hacc; cbn [uint_value Decimal.nb_digits];
    [rewrite Z.pow_0_r; lia|..];
    rewrite Nat2Z.inj_succ, Z.pow_succ_r by lia;
    (etransitivity; [|apply IH; lia]);
    pose proof (Z.pow_nonneg 10 (Z.of_nat (Decimal.nb_digits d))) as Hp; nia.
Qed.

Lemma nzhead_head (d : Decimal.uint) :
  match Decimal.nzhead d with Decimal.D0 _ => False | _ => True end.
Proof.
  induction d; cbn [Decimal.nzhead]; auto.
Qed.

(** The numeral of a positive number has no leading zero. *)
Lemma to_uint_head (p : positive) :
  match Pos.to_uint p with Decimal.D0 _ => False | _ => True end.
Proof.
  pose proof (DecimalPos.Unsigned.to_of (Pos.to_uint p)) as E.
  rewrite DecimalPos.Unsigned.of_to in E. cbn [N.to_uint] in E.
  pose proof (nzhead_head (Pos.to_uint p)) as Hh.
  unfold Decimal.unorm in E.
  destruct (Decimal.nzhead (Pos.to_uint p)) eqn:Hn;
    try (rewrite E; exact I); try contradiction.
  exfalso. exact (DecimalPos.Unsigned.to_uint_nonzero p E).
Qed.

(** A positive number below ten to the [n] has at most [n] digits. *)
Lemma to_uint_digits (p : positive) (n : N) :
  (Z.pos p < 10 ^ Z.of_N n)%Z ->
  (N.of_nat (Decimal.nb_digits (Pos.to_uint p)) <= n)%N.
Proof.
  intros Hp.
  pose proof (to_uint_head p) as Hh.
  pose proof (DecimalPos.Unsigned.of_to p) as E.
  assert (Hv : uint_value 0 (Pos.to_uint p) = Z.pos p).
  { rewrite uint_value_of_uint. unfold Z.of_uint. now rewrite E. }
  assert (Hlow : forall k r, (1 <= k)%Z ->
            uint_value k r = Z.pos p ->
            (N.of_nat (S (Decimal.nb_digits r)) <= n)%N).
  { intros k r Hk Hr.
    pose proof (@uint_value_lower r k ltac:(lia)) as Hl. rewrite Hr in Hl.
    assert (Hlt : (10 ^ Z.of_nat (Decimal.nb_digits r) < 10 ^ Z.of_N n)%Z).
    { pose proof (Z.pow_pos_nonneg 10 (Z.of_nat (Decimal.nb_digits r))
                    ltac:(lia) ltac:(lia)). nia. }
    apply Z.pow_lt_mono_r_iff in Hlt; lia. }
  destruct (Pos.to_uint p) as [|r|r|r|r|r|r|r|r|r|r];
    cbn [Decimal.nb_digits]; [lia | contradiction | ..];
    cbn [uint_value] in Hv; (eapply Hlow; [|exact Hv]; lia).
Qed.

Lemma to_int_cases (z : Z) :
  (exists d, Z.to_int z = Decimal.Pos d /\ d <> Decimal.Nil /\ Z.of_uint d = z)
  \/ (exists d, Z.to_int z = Decimal.Neg d /\ d <> Decimal.Nil
                /\ (- Z.of_uint d)%Z = z).
Proof.
  pose proof (DecimalZ.of_to z) as E.
  destruct z as [|p|p]; simpl in *.
  - left. eexists. split; [reflexivity|]. split; [discriminate | exact E].
  - left. eexists. split; [reflexivity|].
    split; [apply DecimalPos.Unsigned.to_uint_nonnil | exact E].
  - right. eexists. split; [reflexivity|].
    split; [apply DecimalPos.Unsigned.to_uint_nonnil | exact E].
Qed.

(** The numeral [str] writes for an integer in range is within the cap. *)
Lemma to_int_digits (z : Z) :
  in_int_range z ->
  (N.of_nat (Decimal.nb_digits (Decimal.abs (Z.to_int z)))
   <= Py.max_str_digits)%N.
Proof.
  unfold in_int_range. intros Hz.
  destruct z as [|p|p]; cbn [Z.to_int Decimal.abs Z.abs] in *.
  - cbn. unfold Py.max_str_digits. lia.
  - now apply to_uint_digits.
  - now apply to_uint_digits.
Qed.

(** [int] reads the text [str] gives an integer as that integer. *)
Lemma int_str_of_int (z : Z) :
  in_int_range z -> Py.int (Py.str_of_int z) = Some z.
Proof.
  intros Hr. pose proof (to_int_digits Hr) as Hc.
  unfold Py.str_of_int.
  destruct (to_int_cases z) as [(d & E & Hd & Hz)|(d & E & Hd & Hz)];
    rewrite E in *; cbn [Decimal.abs] in Hc.
  - unfold Py.int. rewrite strip_with_keep by apply uint_digits_no_space.
    rewrite <- Hz, <- uint_value_of_uint, <- (int_unsigned_uint Hd Hc).
    destruct d; [congruence|..]; reflexivity.
  - unfold Py.int.
    rewrite strip_with_keep
      by (cbn [forallb]; rewrite uint_digits_no_space; reflexivity).
    cbv beta iota. rewrite (int_unsigned_uint Hd Hc). simpl.
    now rewrite uint_value_of_uint, Hz.
Qed.

(** *** What [int] gives is in range *)

Lemma decimal_range (c : char) (d : Z) :
  Py.decimal c = Some d -> (0 <= d <= 9)%Z.
Proof.
  unfold Py.decimal.
  destruct (find _ Py.decimal_zeros) as [z|] eqn:F; [|discriminate].
  apply find_some in F as [_ F]. intros [= <-].
  apply andb_prop in F as [F1 F2].
  apply N.leb_le in F1. apply N.leb_le in F2. lia.
Qed.

Lemma count_digits_underscore (r : str) :
  Py.count_digits (95%N :: r) = Py.count_digits r.
Proof. reflexivity. Qed.

Lemma count_digits_other (c : char) (r : str) :
  N.eqb c 95 = false ->
  Py.count_digits (c :: r) = N.succ (Py.count_digits r).
Proof.
  intros H. unfold Py.count_digits. cbn [filter]. rewrite H. cbn [negb List.length].
  lia.
Qed.

Lemma int_digits_bound (s : str) :
  forall acc us z,
    (0 <= acc)%Z ->
    Py.int_digits acc us s = Some z ->
    (0 <= z < (acc + 1) * 10 ^ Z.of_N (Py.count_digits s))%Z.
Proof.
  induction s as [|c r IH]; intros acc us z Hacc E; cbn [Py.int_digits] in E.
  - destruct us; [discriminate|]. injection E as <-.
    change (Py.count_digits []) with 0%N. rewrite Z.pow_0_r. lia.
  - destruct (N.eqb c 95) eqn:H95.
    + apply N.eqb_eq in H95. subst c. rewrite count_digits_underscore.
      destruct us; [discriminate|]. now apply IH in E.
    + destruct (Py.decimal c) as [d|] eqn:Hd; [|discriminate].
      apply decimal_range in Hd.
      apply IH in E; [|lia].
      rewrite (@count_digits_other c r H95), N2Z.inj_succ, Z.pow_succ_r by lia.
      pose proof (Z.pow_pos_nonneg 10 (Z.of_N (Py.count_digits r))
                    ltac:(lia) ltac:(lia)).
      nia.
Qed.

Lemma int_unsigned_bound (s : str) (z : Z) :
  Py.int_unsigned s = Some z ->
  (0 <= z < 10 ^ Z.of_N Py.max_str_digits)%Z.
Proof.
  unfold Py.int_unsigned. destruct s as [|c r]; [discriminate|].
  destruct (Py.decimal c) as [d|] eqn:Hd; [|discriminate].
  destruct (N.ltb Py.max_str_digits (Py.count_digits (c :: r))) eqn:Hc;
    [discriminate|].
  apply N.ltb_ge in Hc. intros E.
  assert (H95 : N.eqb c 95 = false).
  { destruct (N.eqb c 95) eqn:H; [|reflexivity].
    apply N.eqb_eq in H. subst c. discriminate. }
  rewrite (@count_digits_other c r H95) in Hc.
  apply decimal_range in Hd.
  apply int_digits_bound in E; [|lia].
  assert (Hp : (10 ^ Z.of_N (N.succ (Py.count_digits r))
                <= 10 ^ Z.of_N Py.max_str_digits)%Z)
    by (apply Z.pow_le_mono_r; lia).
  rewrite N2Z.inj_succ, Z.pow_succ_r in Hp by lia.
  pose proof (Z.pow_pos_nonneg 10 (Z.of_N (Py.count_digits r))
                ltac:(lia) ltac:(lia)).
  split; [lia|]. nia.
Qed.

(** Whatever [int] returns has no more than [max_str_digits] digits. *)
Lemma int_in_range (s : str) (z : Z) :
  Py.int s = Some z -> in_int_range z.
Proof.
  unfold Py.int, in_int_range.
  destruct (Py.strip_with Py.int_space s) as [|c r] eqn:Hs.
  - discriminate.
  - assert (Hu : forall t v, Py.int_unsigned t = Some v ->
                             (Z.abs v < 10 ^ Z.of_N Py.max_str_digits)%Z).
    { intros t v Hv. apply int_unsigned_bound in Hv. lia. }
    assert (Hn : forall t v, option_map Z.opp (Py.int_unsigned t) = Some v ->
                             (Z.abs v < 10 ^ Z.of_N Py.max_str_digits)%Z).
    { intros t v Hv. destruct (Py.int_unsigned t) as [x|] eqn:Hx;
        [|discriminate]. injection Hv as <-.
      apply int_unsigned_bound in Hx. lia. }
    destruct c; [now apply Hu|].
    repeat match goal with
           | p : positive |- _ => destruct p; try now apply Hu
           end; now apply Hn.
Qed.

(** *** Quantities on a run *)

Lemma step_in_range (w : World) (e : event) :
  healthy (self w) ->
  Forall quantity_in_range (_items (self w)) ->
  Forall quantity_in_range (_items (self (step w e))).
Proof.
  intros H Ht. unfold step.
  destruct e as [n q l t|ps|b| | |answer|chosen]; simpl.
  - exact Ht.
  - exact Ht.
  - exact Ht.
  - destruct (Py.is_empty (Py.strip (name_var (self w)))) eqn:Hn.
    + now rewrite (add_item_blank w Hn).
    + destruct (Py.int (quantity_var (self w))) as [z|] eqn:Hq.
      * destruct (Z.le_gt_cases 1 z) as [Hz|Hz].
        -- rewrite (add_item_good w Hn Hq Hz). simpl.
           apply Forall_app. split; [exact Ht|].
           constructor; [|constructor].
           exists z. split; [reflexivity|]. exact (int_in_range _ Hq).
        -- rewrite (add_item_bad_quantity w Hn); [exact Ht|].
           unfold bad_quantity. now rewrite Hq.
      * rewrite (add_item_bad_quantity w Hn); [exact Ht|].
        unfold bad_quantity. now rewrite Hq.
  - destruct (Tk.selection (tree (self w))) as [|first rest] eqn:Hs.
    + now rewrite (delete_selected_none w Hs).
    + destruct (@delete_selected_healthy w first rest H Hs) as (i & _ & _ & ->).
      simpl. now apply without_Forall.
  - destruct answer; [|exact Ht].
    destruct (clear_items_yes w) as (sel' & ->). constructor.
  - now rewrite keeps_self_export_csv.
Qed.

(** On a run every quantity is an integer [int] returned, so [str] writes
    it and [int] reads it back. *)
Lemma run_in_range (es : list event) (disk : str -> option (list byte)) :
  Forall quantity_in_range (_items (self (mainloop es (start disk)))).
Proof.
  assert (H : forall es w,
             healthy (self w) -> Forall quantity_in_range (_items (self w)) ->
             Forall quantity_in_range (_items (self (mainloop es w)))).
  { clear es. intros es. induction es as [|e es IH]; intros w Hh Ht; simpl.
    - exact Ht.
    - apply IH; [now apply step_healthy | now apply step_in_range]. }
  apply H; [exact init_healthy | constructor].
Qed.

Lemma rebuilt_same (xs ys : list InventoryItem) :
  Forall entry_ok ys ->
  Forall quantity_in_range ys ->
  map fields xs = map (fun item => map VStr (cells item)) ys ->
  Forall2 same_entry xs ys.
Proof.
  intros Hok. revert xs.
  induction Hok as [|y ys Hy Hys IH]; intros [|x xs] Hr E; simpl in E;
    try discriminate; constructor.
  - destruct Hy as (n & q & l & t & -> & _ & _).
    apply Forall_inv in Hr. destruct Hr as (q' & Hq & Hr).
    cbn [quantity] in Hq. injection Hq as <-.
    destruct x as [xn xq xl xt].
    cbn [map fields cells name quantity location notes str_of] in E.
    inversion E; subst. unfold same_entry.
    cbn [name quantity location notes].
    do 3 (split; [reflexivity|]).
    exists q. split; [reflexivity|]. split; [reflexivity|].
    now apply int_str_of_int.
  - apply IH; [now apply Forall_inv_tail in Hr | now injection E].
Qed.

(** X10: on a window reached by the event loop, the list comprehension of
    the recovery branch would raise nothing and rebuild the list entry for
    entry: every rebuilt item has the name, location and notes of the entry
    in its place, and as quantity the cell text [str(quantity)] of the
    entry's quantity, a text that [int] reads back as that same integer. *)
Theorem rebuilding_from_the_table_keeps_values
        (es : list event) (disk : str -> option (list byte)) :
  let w := mainloop es (start disk) in
  exists xs,
    items_from_table w = (Return xs, w) /\
    Forall2 same_entry xs (_items (self w)).
Proof.
  intros w.
  destruct (run_healthy es disk) as ((Hok & Hm) & Hwf & _). fold w in Hok, Hm, Hwf.
  destruct (items_from_table_wf w Hwf) as (xs & Hrun & Hxs).
  exists xs. split; [exact Hrun|].
  apply rebuilt_same; [exact Hok | exact (run_in_range es disk) |].
  rewrite Hxs. unfold displayed. rewrite <- (map_map Tk.row_values (map VStr)).
  unfold mirrors in Hm. rewrite Hm. apply map_map.
Qed.

(** ** Several rows selected, and the window after a clear *)

(** The row found at an item's index carries the item's identifier. *)
Lemma index_of_row (id : Tk.iid) (rs : list Tk.row) (i : nat) :
  Tk.index_of id rs = Some i ->
  exists r, nth_error rs i = Some r /\ Tk.row_id r = id.
Proof.
  revert i. induction rs as [|r0 rs IH]; simpl; intros i H; [discriminate|].
  destruct (N.eqb_spec (Tk.row_id r0) id) as [E|E].
  - injection H as <-. now exists r0.
  - destruct (Tk.index_of id rs) as [k|]; [|discriminate].
    injection H as <-. exact (IH k eq_refl).
Qed.

(** With distinct identifiers, a deleted item is no row of the table any
    more. *)
Lemma remove_row_gone (id : Tk.iid) (rs : list Tk.row) :
  NoDup (map Tk.row_id rs) -> ~ In id (map Tk.row_id (Tk.remove_row id rs)).
Proof.
  induction rs as [|r rs IH]; simpl; intros Hn; [auto|].
  inversion Hn as [|? ? Hnotin Hn']; subst.
  destruct (N.eqb_spec (Tk.row_id r) id) as [E|E].
  - now rewrite <- E.
  - simpl. intros [F|F]; [contradiction | now apply IH].
Qed.

(** The entry a row shows is the one at the row's position. *)
Lemma mirrors_nth (a : InventoryApp) (i : nat) (r : Tk.row) :
  mirrors a -> nth_error (Tk.rows (tree a)) i = Some r ->
  exists x, nth_error (_items a) i = Some x /\ Tk.row_values r = cells x.
Proof.
  unfold mirrors. intros Hm Hr.
  apply (map_nth_error Tk.row_values) in Hr. rewrite Hm in Hr.
  rewrite nth_error_map in Hr.
  destruct (nth_error (_items a) i) as [x|]; [|discriminate].
  injection Hr as Hr. now exists x.
Qed.

(** X12: on a run from the empty window, with several rows selected the
    delete button removes one entry only, the one of the first item
    [tree.selection()] returns: at the position [i] of the row whose
    identifier is [first] the table loses that row and the list loses the
    entry the row shows, nothing else; [first] is no row of the table any
    more, and every other selected item is still a row of the table and
    still selected. *)
Theorem delete_selected_takes_the_first_only
        (es : list event) (disk : str -> option (list byte))
        (first : Tk.iid) (rest : list Tk.iid) :
  let w := mainloop es (start disk) in
  Tk.selection (tree (self w)) = first :: rest ->
  let w' := snd (delete_selected w) in
  fst (delete_selected w) = Return tt /\
  (exists i r x,
      nth_error (Tk.rows (tree (self w))) i = Some r /\
      Tk.row_id r = first /\
      nth_error (_items (self w)) i = Some x /\
      Tk.row_values r = cells x /\
      _items (self w') = without i (_items (self w)) /\
      Tk.rows (tree (self w')) = without i (Tk.rows (tree (self w)))) /\
  S (List.length (_items (self w'))) = List.length (_items (self w)) /\
  S (List.length (Tk.rows (tree (self w'))))
  = List.length (Tk.rows (tree (self w))) /\
  ~ In first (Tk.get_children (tree (self w'))) /\
  Tk.selection (tree (self w'))
  = filter (fun j => negb (N.eqb j first)) rest /\
  (forall j, In j rest -> j <> first ->
             In j (Tk.get_children (tree (self w'))) /\
             In j (Tk.selection (tree (self w')))).
Proof.
  intros w Hs w'. subst w'.
  pose proof (run_healthy es disk) as H. fold w in H.
  destruct (@delete_selected_healthy w first rest H Hs) as (i & Hi & Hlt & ->).
  destruct H as ((_ & Hm) & (Hnd & _) & Hsel).
  destruct (index_of_row _ _ Hi) as (r & Hr & Hid).
  destruct (mirrors_nth _ Hm Hr) as (x & Hx & Hv).
  unfold Tk.selection in *. cbn [fst snd with_self self set_items set_tree
                                 _items tree row_deleted Tk.rows Tk.selected].
  rewrite Hs. cbn [filter]. rewrite N.eqb_refl. cbn [negb].
  split; [reflexivity|].
  split; [exists i, r, x; repeat (split; [assumption || reflexivity|]);
          reflexivity|].
  split; [now apply without_length|].
  split; [apply without_length; rewrite (mirrors_length Hm); exact Hlt|].
  unfold Tk.get_children.
  cbn [snd with_self self set_items set_tree tree row_deleted Tk.rows].
  unfold Tk.index in Hi. rewrite <- (remove_row_without _ _ Hi).
  split; [now apply remove_row_gone|].
  split; [reflexivity|].
  intros j Hj Hne. split.
  - apply remove_row_keeps; [exact Hne|].
    unfold selection_wf in Hsel. rewrite Hs, Forall_forall in Hsel.
    apply Hsel. now right.
  - apply filter_In. split; [exact Hj|].
    apply negb_true_iff, N.eqb_neq, Hne.
Qed.

Lemma delete_selected_takes_the_first_only_witness :
  let es := [Typing (Py.u "A") (Py.u "1") [] []; Add;
             Typing (Py.u "B") (Py.u "2") [] []; Add;
             Typing (Py.u "C") (Py.u "3") [] []; Add;
             Selecting [0%nat; 2%nat]] in
  let w := mainloop es (start (fun _ => None)) in
  Tk.selection (tree (self w)) = [1%N; 3%N] /\
  map cells (_items (self w))
  = [[Py.u "A"; Py.u "1"; []; []]; [Py.u "B"; Py.u "2"; []; []];
     [Py.u "C"; Py.u "3"; []; []]] /\
  map cells (_items (self (snd (delete_selected w))))
  = [[Py.u "B"; Py.u "2"; []; []]; [Py.u "C"; Py.u "3"; []; []]] /\
  List.length (_items (self (snd (delete_selected w)))) = 2%nat /\
  Tk.selection (tree (self (snd (delete_selected w)))) = [3%N].
Proof.
  intros es w.
  assert (Hs : Tk.selection (tree (self w)) = [1%N; 3%N]) by reflexivity.
  destruct (@delete_selected_takes_the_first_only es (fun _ => None)
              1%N [3%N] Hs) as (_ & _ & Hl & _ & _ & Hsel & _).
  split; [exact Hs|]. split; [reflexivity|]. split; [reflexivity|].
  split; [|exact Hsel].
  apply eq_add_S. etransitivity; [exact Hl | reflexivity].
Defined.

(** X13: on a run from the empty window, after a confirmed clear the window
    behaves like the empty one: nothing is selected, the delete button only
    shows the NoSelection notice, the export button only shows the
    EmptyLedger notice, and neither changes the window or the disk. *)
Theorem after_clear_nothing_to_delete_or_export
        (es : list event) (disk : str -> option (list byte)) (chosen : str) :
  let w := mainloop (es ++ [Clear true]) (start disk) in
  _items (self w) = [] /\
  Tk.rows (tree (self w)) = [] /\
  Tk.selection (tree (self w)) = [] /\
  delete_selected w = (Return tt, with_dialog NoSelection w) /\
  export_csv chosen w = (Return tt, with_dialog EmptyLedger w).
Proof.
  intros w. subst w. unfold mainloop. rewrite fold_left_app.
  fold (mainloop es (start disk)). set (w0 := mainloop es (start disk)).
  pose proof (run_healthy es disk) as (_ & _ & Hsel). fold w0 in Hsel.
  cbn [fold_left]. unfold step. cbn [callback].
  rewrite (clear_items_yes_selection w0 Hsel). cbn [snd].
  split; [reflexivity|]. split; [reflexivity|]. split; [reflexivity|].
  split; [now apply delete_selected_none | now apply export_csv_empty].
Qed.

